(** * A shallow embedding of the oltl value types, schema reconstruction
    and time-aware models ([src/oltl/core.py], [src/oltl/utils.py]). *)

From Stdlib Require Import ZArith List String Ascii Bool Lia.
From Stdlib Require Import Floats Permutation.
Import ListNotations.

Local Open Scope Z_scope.
Set Warnings "-register-all".


(** ** Shared data *)

(** A Python [str]: the sequence of its code points. *)
Definition str := list Z.

(** ASCII literal to [str]. *)
Definition s2z (s : string) : str :=
  map (fun c => Z.of_nat (nat_of_ascii c)) (list_ascii_of_string s).

(** Result of a fallible Python call: a value or the exception it raises. *)
Inductive result (E A : Type) : Type :=
| Ok (a : A)
| Err (e : E).
Arguments Ok {E A} a.
Arguments Err {E A} e.

Definition rbind {E A B} (m : result E A) (k : A -> result E B) : result E B :=
  match m with
  | Ok a => k a
  | Err e => Err e
  end.

Notation "x <- m ;; k" := (rbind m (fun x => k))
  (at level 61, m at next level, right associativity).
Notation "m ;;; k" := (rbind m (fun _ => k))
  (at level 61, right associativity).

(** [str.isspace] / [\s] of Python's [re] on [str] patterns. *)
Definition py_isspace (c : Z) : bool :=
  ((9 <=? c) && (c <=? 13)) || ((28 <=? c) && (c <=? 31)) || (c =? 32)
  || (c =? 133) || (c =? 160) || (c =? 5760)
  || ((8192 <=? c) && (c <=? 8202))
  || (c =? 8232) || (c =? 8233) || (c =? 8239) || (c =? 8287) || (c =? 12288).

(** Rust's [char::is_whitespace] (Unicode White_Space), used by [str::trim]. *)
Definition rust_is_whitespace (c : Z) : bool :=
  ((9 <=? c) && (c <=? 13)) || (c =? 32)
  || (c =? 133) || (c =? 160) || (c =? 5760)
  || ((8192 <=? c) && (c <=? 8202))
  || (c =? 8232) || (c =? 8233) || (c =? 8239) || (c =? 8287) || (c =? 12288).

(** ** [src/oltl/utils.py] *)
Module Utils.

(** [normalize_trans_map], the [str.maketrans] table (code points). *)
Definition normalize_trans_map (c : Z) : Z :=
  if (c =? 727) || (c =? 1418) || (c =? 8208) || (c =? 8209) || (c =? 8210)
     || (c =? 8211) || (c =? 8259) || (c =? 8315) || (c =? 8331) || (c =? 8722)
  then 45                                  (* hyphen-minus *)
  else if (c =? 12288) || (c =? 8203) || (c =? 65279) || (c =? 9)
  then 32                                  (* space *)
  else if (c =? 8220) || (c =? 8221) then 34 (* quotation mark *)
  else if (c =? 8216) || (c =? 8217) then 39 (* apostrophe *)
  else c.

(** [str.translate] with that table. *)
Definition translate (s : str) : str := map normalize_trans_map s.

(** [parentheses_left.sub(r"\1 (", s)] with [parentheses_left = ([^\s(])\(]:
    a left-to-right scan for non-overlapping matches of length two. *)
Fixpoint parentheses_left_sub (s : str) : str :=
  match s with
  | a :: ((b :: rest) as t) =>
      if negb (py_isspace a) && negb (a =? 40) && (b =? 40)
      then a :: 32 :: 40 :: parentheses_left_sub rest
      else a :: parentheses_left_sub t
  | _ => s
  end.

(** [parentheses_right.sub(r") \1", s)] with [parentheses_right = \)([^\s)])]. *)
Fixpoint parentheses_right_sub (s : str) : str :=
  match s with
  | a :: ((b :: rest) as t) =>
      if (a =? 41) && negb (py_isspace b) && negb (b =? 41)
      then 41 :: 32 :: b :: parentheses_right_sub rest
      else a :: parentheses_right_sub t
  | _ => s
  end.

Section Normalize.
(** [unicodedata.normalize("NFKC", _)], from the Python standard library. *)
Variable nfkc : str -> str.

Definition normalize_jptext (x : str) : str :=
  parentheses_right_sub (parentheses_left_sub (translate (nfkc x))).
End Normalize.

(** [parentheses_left.search(s) is not None]: some non-space character
    other than ["("] is directly followed by ["("]. *)
Fixpoint parentheses_left_search (s : str) : bool :=
  match s with
  | a :: ((b :: _) as t) =>
      (negb (py_isspace a) && negb (a =? 40) && (b =? 40)) || parentheses_left_search t
  | _ => false
  end.

(** [parentheses_right.search(s) is not None]: some [")"] is directly
    followed by a non-space character other than [")"]. *)
Fixpoint parentheses_right_search (s : str) : bool :=
  match s with
  | a :: ((b :: _) as t) =>
      ((a =? 41) && negb (py_isspace b) && negb (b =? 41)) || parentheses_right_search t
  | _ => false
  end.

(** The steps (c) and (d) of the normalization as the specification words
    them: insert one space between a non-space, non-["("] character and a
    following ["("]; insert one space between [")"] and a following
    non-space, non-[")"] character. *)
Fixpoint spec_space_before_open (s : str) : str :=
  match s with
  | a :: ((b :: _) as t) =>
      if negb (py_isspace a) && negb (a =? 40) && (b =? 40)
      then a :: 32 :: spec_space_before_open t
      else a :: spec_space_before_open t
  | _ => s
  end.

Fixpoint spec_space_after_close (s : str) : str :=
  match s with
  | a :: ((b :: _) as t) =>
      if (a =? 41) && negb (py_isspace b) && negb (b =? 41)
      then a :: 32 :: spec_space_after_close t
      else a :: spec_space_after_close t
  | _ => s
  end.

(** A fragment of NFKC: correct on ASCII (fixed), on the ideographic and
    other compatibility spaces (to U+0020) and on the full-width ASCII
    forms U+FF01..U+FF5E; every other code point is left as it is, so it
    is only used on inputs drawn from those ranges. *)
Definition nfkc_fragment (s : str) : str :=
  map (fun c =>
         if (c =? 12288) || (c =? 160) || ((8192 <=? c) && (c <=? 8202)) then 32
         else if (65281 <=? c) && (c <=? 65374) then c - 65248
         else c) s.

End Utils.

(** ** The string value types of [src/oltl/core.py] *)
Module Strings.

(** The string mixins, in the classes' method resolution order. *)
Inductive str_mixin :=
| LimitedMinLengthStringMixIn
| NonEmptyStringMixIn
| LimitedMaxLengthStringMixIn
| NormalizedStringMixIn
| RegexSubstitutedStringMixIn
| RegexMatchedStringMixIn
| TrimmedStringMixIn
| SnakeCaseStringMixIn
| CamelCaseStringMixIn.

(** Exceptions of the string pipeline: the [NotImplementedError] of a
    hook a concrete class does not override, and the validation failures
    of [core_schema.str_schema]. *)
Inductive str_error :=
| NotImplementedError
| StringTooShort (min_length : Z)
| StringTooLong (max_length : Z)
| StringPatternMismatch.

Section StringTypes.
(** Python's [re] patterns and [re.sub]; the Rust pattern test of
    pydantic-core; pydantic's [to_snake] and [to_camel]; NFKC. *)
Variable regex : Type.
Variable re_sub : regex -> str -> str -> str.
Variable pattern_is_match : regex -> str -> bool.
Variable to_snake : str -> str.
Variable to_camel : str -> str.
Variable nfkc : str -> str.

(** A concrete [BaseString] subclass: its MRO below itself and above
    [BaseString], and the class-method hooks it overrides ([None]: the
    class does not define it). *)
Record str_type := {
  st_mro : list str_mixin;
  st_min_length : option Z;             (* get_min_length *)
  st_max_length : option Z;             (* get_max_length *)
  st_pattern : option regex;            (* get_pattern *)
  st_repl : option str;                 (* get_repl *)
  st_pattern_to_repl_map : option (list (regex * str)) (* get_pattern_to_repl_map *)
}.

(** Hook lookup on [cls], through the MRO. *)
Definition get_min_length (T : str_type) : result str_error Z :=
  match st_min_length T with
  | Some n => Ok n
  | None =>
      if existsb (fun m => match m with NonEmptyStringMixIn => true | _ => false end)
           (st_mro T)
      then Ok 1 else Err NotImplementedError
  end.

Definition get_max_length (T : str_type) : result str_error Z :=
  match st_max_length T with Some n => Ok n | None => Err NotImplementedError end.

Definition get_pattern (T : str_type) : result str_error regex :=
  match st_pattern T with Some p => Ok p | None => Err NotImplementedError end.

Definition get_repl (T : str_type) : result str_error str :=
  match st_repl T with Some r => Ok r | None => Err NotImplementedError end.

(** [RegexSubstitutedStringMixIn.get_pattern_to_repl_map]. *)
Definition get_pattern_to_repl_map (T : str_type)
  : result str_error (list (regex * str)) :=
  match st_pattern_to_repl_map T with
  | Some m => Ok m
  | None => p <- get_pattern T ;; r <- get_repl T ;; Ok [(p, r)]
  end.

(** The constraint descriptor handed to [core_schema.str_schema]. *)
Record constraints := {
  c_min_length : option Z;
  c_max_length : option Z;
  c_pattern : option regex;
  c_strip_whitespace : bool
}.

Definition no_constraints : constraints :=
  {| c_min_length := None; c_max_length := None; c_pattern := None;
     c_strip_whitespace := false |}.

(** One class's [__get_extra_constraint_dict__]:
    [super().__get_extra_constraint_dict__() | {key: value}]; classes that
    do not define it pass [super()]'s dictionary through. *)
Definition contribute (T : str_type) (m : str_mixin) (d : constraints)
  : result str_error constraints :=
  match m with
  | LimitedMinLengthStringMixIn =>
      n <- get_min_length T ;;
      Ok {| c_min_length := Some n; c_max_length := c_max_length d;
            c_pattern := c_pattern d; c_strip_whitespace := c_strip_whitespace d |}
  | LimitedMaxLengthStringMixIn =>
      n <- get_max_length T ;;
      Ok {| c_min_length := c_min_length d; c_max_length := Some n;
            c_pattern := c_pattern d; c_strip_whitespace := c_strip_whitespace d |}
  | RegexMatchedStringMixIn =>
      p <- get_pattern T ;;
      Ok {| c_min_length := c_min_length d; c_max_length := c_max_length d;
            c_pattern := Some p; c_strip_whitespace := c_strip_whitespace d |}
  | TrimmedStringMixIn =>
      Ok {| c_min_length := c_min_length d; c_max_length := c_max_length d;
            c_pattern := c_pattern d; c_strip_whitespace := true |}
  | _ => Ok d
  end.

(** The cooperative [super()] chain: the first class of the MRO asks the
    rest for their dictionary, then adds its own entry. *)
Fixpoint extra_constraint_dict (T : str_type) (mro : list str_mixin)
  : result str_error constraints :=
  match mro with
  | [] => Ok no_constraints                 (* BaseString: {} *)
  | m :: rest => d <- extra_constraint_dict T rest ;; contribute T m d
  end.

(** One class's own transform in its [_proc_str]
    ([return super()._proc_str(f(s))]). *)
Definition transform_step (T : str_type) (m : str_mixin) (s : str)
  : result str_error str :=
  match m with
  | NormalizedStringMixIn => Ok (Utils.normalize_jptext nfkc s)
  | RegexSubstitutedStringMixIn =>
      mp <- get_pattern_to_repl_map T ;;
      Ok (fold_left (fun acc pr => re_sub (fst pr) (snd pr) acc) mp s)
  | SnakeCaseStringMixIn => Ok (to_snake s)
  | CamelCaseStringMixIn => Ok (to_camel s)
  | _ => Ok s
  end.

(** [cls._proc_str]: each class transforms, then hands the result on to
    the next class of the MRO; [BaseString._proc_str] returns it. *)
Fixpoint proc_str (T : str_type) (mro : list str_mixin) (s : str)
  : result str_error str :=
  match mro with
  | [] => Ok s
  | m :: rest => s' <- transform_step T m s ;; proc_str T rest s'
  end.

Fixpoint drop_while (p : Z -> bool) (s : str) : str :=
  match s with
  | c :: t => if p c then drop_while p t else s
  | [] => []
  end.

(** Rust's [str::trim]. *)
Definition rust_trim (s : str) : str :=
  rev (drop_while rust_is_whitespace (rev (drop_while rust_is_whitespace s))).

(** pydantic-core's constrained [str] validator: strip, then the length
    bounds (in characters), then the pattern. *)
Definition str_check (d : constraints) (s : str) : result str_error str :=
  let s := if c_strip_whitespace d then rust_trim s else s in
  let n := Z.of_nat (List.length s) in
  match c_min_length d with
  | Some lo => if n <? lo then Err (StringTooShort lo) else Ok tt
  | None => Ok tt
  end ;;;
  match c_max_length d with
  | Some hi => if hi <? n then Err (StringTooLong hi) else Ok tt
  | None => Ok tt
  end ;;;
  match c_pattern d with
  | Some p => if pattern_is_match p s then Ok s else Err StringPatternMismatch
  | None => Ok s
  end.

(** [TypeAdapter(cls).validate_python(s)] for a [str] input:
    [no_info_after_validator_function(cls, no_info_before_validator_function(
    cls._proc_str, str_schema( **cls.__get_extra_constraint_dict__())))].
    The schema is built first; the after-validator [cls] wraps the result. *)
Definition validate (T : str_type) (s : str) : result str_error str :=
  d <- extra_constraint_dict T (st_mro T) ;;
  s1 <- proc_str T (st_mro T) s ;;
  str_check d s1.

(** [BaseString.serialize]: [str(self)]. *)
Definition serialize (s : str) : str := s.

End StringTypes.

Arguments st_mro {regex} _.
Arguments st_min_length {regex} _.
Arguments st_max_length {regex} _.
Arguments st_pattern {regex} _.
Arguments st_repl {regex} _.
Arguments st_pattern_to_repl_map {regex} _.
Arguments c_min_length {regex} _.
Arguments c_max_length {regex} _.
Arguments c_pattern {regex} _.
Arguments c_strip_whitespace {regex} _.

(** Python's [re.sub] for the patterns that are a single class of literal
    characters, with a literal replacement: every character of the class is
    replaced. *)
Definition char_class := list Z.

Definition char_class_sub (p : char_class) (repl : str) (s : str) : str :=
  flat_map (fun c => if existsb (Z.eqb c) p then repl else [c]) s.

Definition char_class_search (p : char_class) (s : str) : bool :=
  existsb (fun c => existsb (Z.eqb c) p) s.

End Strings.

(** ** [BaseBytes] and the base64 codec of CPython's [binascii] *)
Module Bytes.

(** A Python [bytes] value: its octets. *)
Definition bytes := list Z.

Definition byte_val (b : Byte.byte) : Z := Z.of_N (Byte.to_N b).

(** [table_b2a_base64]: ["A".."Z", "a".."z", "0".."9", "+", "/"]. *)
Definition table_b2a_base64 (i : Z) : Z :=
  if i <? 26 then 65 + i
  else if i <? 52 then 97 + (i - 26)
  else if i <? 62 then 48 + (i - 52)
  else if i =? 62 then 43
  else 47.

(** [table_a2b_base64]: the inverse table, [255] for the other characters. *)
Definition table_a2b_base64 (c : Z) : Z :=
  if (65 <=? c) && (c <=? 90) then c - 65
  else if (97 <=? c) && (c <=? 122) then c - 97 + 26
  else if (48 <=? c) && (c <=? 57) then c - 48 + 52
  else if c =? 43 then 62
  else if c =? 47 then 63
  else 255.

Definition BASE64_PAD : Z := 61.

(** [base64_encode_trio]. *)
Definition encode_trio (b0 b1 b2 : Z) : list Z :=
  let combined := Z.lor (Z.lor (Z.shiftl b0 16) (Z.shiftl b1 8)) b2 in
  [table_b2a_base64 (Z.land (Z.shiftr combined 18) 63);
   table_b2a_base64 (Z.land (Z.shiftr combined 12) 63);
   table_b2a_base64 (Z.land (Z.shiftr combined 6) 63);
   table_b2a_base64 (Z.land combined 63)].

(** [binascii.b2a_base64(data, newline=False)]: whole trios, then the
    one- or two-byte tail with its padding. *)
Fixpoint b2a_base64 (data : bytes) : list Z :=
  match data with
  | b0 :: b1 :: b2 :: rest => encode_trio b0 b1 b2 ++ b2a_base64 rest
  | [b0] =>
      [table_b2a_base64 (Z.shiftr b0 2);
       table_b2a_base64 (Z.shiftl (Z.land b0 3) 4);
       BASE64_PAD; BASE64_PAD]
  | [b0; b1] =>
      let combined := Z.lor (Z.shiftl b0 8) b1 in
      [table_b2a_base64 (Z.shiftr combined 10);
       table_b2a_base64 (Z.land (Z.shiftr combined 4) 63);
       table_b2a_base64 (Z.land (Z.shiftl combined 2) 63);
       BASE64_PAD]
  | [] => []
  end.

Inductive b64_error :=
| UnicodeEncodeError          (* str.encode("ascii") of a non-ASCII text *)
| ExcessDataCharacter         (* quad_pos = 1 at the end *)
| IncorrectPadding.

(** The state of [binascii.a2b_base64]'s loop. *)
Record a2b_state := {
  quad_pos : Z;
  leftchar : Z;
  pads : Z;
  bin_data : list Z         (* the output written so far, in reverse *)
}.

(** One character of the loop ([strict_mode=False]). [inl]: continue with
    the new state; [inr]: [goto done]. *)
Definition a2b_step (st : a2b_state) (c : Z) : a2b_state + a2b_state :=
  if c =? BASE64_PAD then
    let pads' := pads st + 1 in
    if (2 <=? quad_pos st) && (4 <=? quad_pos st + pads')
    then inr {| quad_pos := quad_pos st; leftchar := leftchar st; pads := pads';
                bin_data := bin_data st |}
    else inl {| quad_pos := quad_pos st; leftchar := leftchar st;
                pads := if 2 <=? quad_pos st then pads' else pads st;
                bin_data := bin_data st |}
  else
    let this_ch := table_a2b_base64 c in
    if 64 <=? this_ch then inl st
    else
      if quad_pos st =? 0 then
        inl {| quad_pos := 1; leftchar := this_ch; pads := 0; bin_data := bin_data st |}
      else if quad_pos st =? 1 then
        inl {| quad_pos := 2; leftchar := Z.land this_ch 15; pads := 0;
               bin_data := Z.land (Z.lor (Z.shiftl (leftchar st) 2) (Z.shiftr this_ch 4)) 255
                           :: bin_data st |}
      else if quad_pos st =? 2 then
        inl {| quad_pos := 3; leftchar := Z.land this_ch 3; pads := 0;
               bin_data := Z.land (Z.lor (Z.shiftl (leftchar st) 4) (Z.shiftr this_ch 2)) 255
                           :: bin_data st |}
      else
        inl {| quad_pos := 0; leftchar := 0; pads := 0;
               bin_data := Z.land (Z.lor (Z.shiftl (leftchar st) 6) this_ch) 255
                           :: bin_data st |}.

Fixpoint a2b_loop (st : a2b_state) (s : list Z) : a2b_state + a2b_state :=
  match s with
  | [] => inl st
  | c :: rest =>
      match a2b_step st c with
      | inl st' => a2b_loop st' rest
      | inr st' => inr st'
      end
  end.

Definition a2b_init : a2b_state :=
  {| quad_pos := 0; leftchar := 0; pads := 0; bin_data := [] |}.

(** [binascii.a2b_base64(s, strict_mode=False)] on the ASCII bytes of [s]. *)
Definition a2b_base64 (ascii_data : list Z) : result b64_error bytes :=
  match a2b_loop a2b_init ascii_data with
  | inr st => Ok (rev (bin_data st))
  | inl st =>
      if quad_pos st =? 0 then Ok (rev (bin_data st))
      else if quad_pos st =? 1 then Err ExcessDataCharacter
      else Err IncorrectPadding
  end.

(** [base64.standard_b64decode(s)] for a [str]: [s.encode("ascii")], then
    [a2b_base64]. *)
Definition standard_b64decode (s : str) : result b64_error bytes :=
  if forallb (fun c => c <? 128) s then a2b_base64 s else Err UnicodeEncodeError.

(** [base64.standard_b64encode(b).decode()]: the ASCII text as a [str]. *)
Definition standard_b64encode (b : bytes) : str := b2a_base64 b.

(** [BaseBytes.__new__]: raw bytes are kept, text is base64-decoded. *)
Inductive bytes_input :=
| FromBytes (b : bytes)
| FromStr (s : str).

Definition BaseBytes_new (value : bytes_input) : result b64_error bytes :=
  match value with
  | FromBytes b => Ok b
  | FromStr s => standard_b64decode s
  end.

(** [BaseBytes.serialize]. *)
Definition serialize (b : bytes) : str := standard_b64encode b.

(** The values [BaseBytes.validate] distinguishes: an instance of [cls],
    a [bytes], a [str], anything else. *)
Inductive validate_input :=
| IsInstance (b : bytes)
| PyBytes (b : bytes)
| PyStr (s : str)
| PyOther.

Inductive validate_error :=
| DecodeError (e : b64_error)   (* raised by cls(value) *)
| CannotConvert.                (* ValueError("Cannot convert ...") *)

(** [BaseBytes.validate]. *)
Definition BaseBytes_validate (value : validate_input) : result validate_error bytes :=
  match value with
  | IsInstance b => Ok b
  | PyBytes b => match BaseBytes_new (FromBytes b) with
                 | Ok v => Ok v | Err e => Err (DecodeError e) end
  | PyStr s => match BaseBytes_new (FromStr s) with
               | Ok v => Ok v | Err e => Err (DecodeError e) end
  | PyOther => Err CannotConvert
  end.

End Bytes.

(** ** Bounded integers and floats *)
Module Numbers.

(** A JSON value as emitted by a value type's serializer. *)
Inductive wire :=
| WInt (z : Z)
| WFloat (f : PrimFloat.float)
| WStr (s : str).

Inductive num_error :=
| NotImplementedError
| GreaterThanEqual
| LessThanEqual.

(** [LowerBoundIntegerMixIn] (in [core.py]) and [UpperBoundIntegerMixIn]. *)
Inductive int_mixin := LowerBoundIntegerMixIn | UpperBoundIntegerMixIn.

(** A concrete [BaseInteger] subclass: its MRO up to [BaseInteger] and its
    [get_min_value] / [get_max_value] overrides. *)
Record int_type := {
  it_mro : list int_mixin;
  it_min_value : option Z;
  it_max_value : option Z
}.

(** The [ge] / [le] entries handed to [core_schema.int_schema]. *)
Record int_constraints := { ge : option Z; le : option Z }.

(** [LowerBoundIntegerMixIn.__get_extra_constraint_dict__]:
    [super() | {"ge": cls.get_min_value()}]. *)
Definition lower_bound_integer_contribute (T : int_type) (d : int_constraints)
  : result num_error int_constraints :=
  match it_min_value T with
  | Some v => Ok {| ge := Some v; le := le d |}
  | None => Err NotImplementedError
  end.

(** Modelled from the spec: [UpperBoundIntegerMixIn], imported by
    [oltl/__init__.py] and used by the tests but absent from [core.py]
    (spec 4.3: an inclusive upper bound check). It is taken as the mirror of
    [LowerBoundIntegerMixIn]: [super() | {"le": cls.get_max_value()}]. *)
Definition upper_bound_integer_contribute (T : int_type) (d : int_constraints)
  : result num_error int_constraints :=
  match it_max_value T with
  | Some v => Ok {| ge := ge d; le := Some v |}
  | None => Err NotImplementedError
  end.

Definition int_contribute (T : int_type) (m : int_mixin) (d : int_constraints)
  : result num_error int_constraints :=
  match m with
  | LowerBoundIntegerMixIn => lower_bound_integer_contribute T d
  | UpperBoundIntegerMixIn => upper_bound_integer_contribute T d
  end.

Fixpoint int_constraint_dict (T : int_type) (mro : list int_mixin)
  : result num_error int_constraints :=
  match mro with
  | [] => Ok {| ge := None; le := None |}
  | m :: rest => d <- int_constraint_dict T rest ;; int_contribute T m d
  end.

(** pydantic-core's constrained [int] validator, then [cls.validate]
    (an [int] is wrapped as it is). *)
Definition validate_int (T : int_type) (x : Z) : result num_error Z :=
  d <- int_constraint_dict T (it_mro T) ;;
  match le d with
  | Some hi => if hi <? x then Err LessThanEqual else Ok tt
  | None => Ok tt
  end ;;;
  match ge d with
  | Some lo => if x <? lo then Err GreaterThanEqual else Ok tt
  | None => Ok tt
  end ;;;
  Ok x.

(** [BaseInteger.serialize]: [int(self)]. *)
Definition serialize_int (x : Z) : wire := WInt x.

(** [LowerBoundFloatMixIn] (in [core.py]) and [UpperBoundFloatMixIn]. *)
Inductive float_mixin := LowerBoundFloatMixIn | UpperBoundFloatMixIn.

Record float_type := {
  ft_mro : list float_mixin;
  ft_min_value : option PrimFloat.float;
  ft_max_value : option PrimFloat.float
}.

Record float_constraints := { fge : option PrimFloat.float; fle : option PrimFloat.float }.

(** [LowerBoundFloatMixIn.__get_extra_constraint_dict__]. *)
Definition lower_bound_float_contribute (T : float_type) (d : float_constraints)
  : result num_error float_constraints :=
  match ft_min_value T with
  | Some v => Ok {| fge := Some v; fle := fle d |}
  | None => Err NotImplementedError
  end.

(** Modelled from the spec: [UpperBoundFloatMixIn], named by the tests
    ([tests/fixtures.py], [tests/test_package.py]) but absent from
    [core.py] (spec 4.3: an inclusive upper bound check), taken as the
    mirror of [LowerBoundFloatMixIn] with an ["le"] entry. *)
Definition upper_bound_float_contribute (T : float_type) (d : float_constraints)
  : result num_error float_constraints :=
  match ft_max_value T with
  | Some v => Ok {| fge := fge d; fle := Some v |}
  | None => Err NotImplementedError
  end.

Definition float_contribute (T : float_type) (m : float_mixin) (d : float_constraints)
  : result num_error float_constraints :=
  match m with
  | LowerBoundFloatMixIn => lower_bound_float_contribute T d
  | UpperBoundFloatMixIn => upper_bound_float_contribute T d
  end.

Fixpoint float_constraint_dict (T : float_type) (mro : list float_mixin)
  : result num_error float_constraints :=
  match mro with
  | [] => Ok {| fge := None; fle := None |}
  | m :: rest => d <- float_constraint_dict T rest ;; float_contribute T m d
  end.

(** pydantic-core's constrained [float] validator: the value must compare
    [<= le] and [>= ge] (IEEE comparisons, so a NaN fails every bound),
    then [cls.validate]. *)
Definition validate_float (T : float_type) (x : PrimFloat.float)
  : result num_error PrimFloat.float :=
  d <- float_constraint_dict T (ft_mro T) ;;
  match fle d with
  | Some hi => if negb (PrimFloat.leb x hi) then Err LessThanEqual else Ok tt
  | None => Ok tt
  end ;;;
  match fge d with
  | Some lo => if negb (PrimFloat.leb lo x) then Err GreaterThanEqual else Ok tt
  | None => Ok tt
  end ;;;
  Ok x.

(** [BaseFloat.serialize]: [float(self)]. *)
Definition serialize_float (x : PrimFloat.float) : wire := WFloat x.

End Numbers.

(** ** [Id] (ULID text form) and [Timestamp] *)
Module Ident.

Inductive id_error :=
| InvalidULIDString        (* Id.__init__: len(value) != 26 *)
| NonBase32Character       (* ulid.base32.str_to_bytes *)
| TimestampTooLarge.       (* ulid.base32.decode_ulid: first digit above 7 *)

(** [ulid.base32.ENCODING = "0123456789ABCDEFGHJKMNPQRSTVWXYZ"]. *)
Definition ENCODING : list Z := s2z "0123456789ABCDEFGHJKMNPQRSTVWXYZ".

Definition encode_digit (d : Z) : Z := nth (Z.to_nat d) ENCODING 0.

(** [ulid.base32.DECODING] (Crockford's base 32): digits, upper- and
    lower-case letters, with [I]/[L] read as 1 and [O] as 0; [U] and every
    other character invalid ([255]). *)
Definition decode_digit (c : Z) : Z :=
  let c := if (97 <=? c) && (c <=? 122) then c - 32 else c in
  if (48 <=? c) && (c <=? 57) then c - 48
  else match c with
       | 65 => 10 | 66 => 11 | 67 => 12 | 68 => 13 | 69 => 14 | 70 => 15
       | 71 => 16 | 72 => 17 | 73 => 1 | 74 => 18 | 75 => 19 | 76 => 1
       | 77 => 20 | 78 => 21 | 79 => 0 | 80 => 22 | 81 => 23 | 82 => 24
       | 83 => 25 | 84 => 26 | 86 => 27 | 87 => 28 | 88 => 29 | 89 => 30
       | 90 => 31 | _ => 255
       end.

(** The [k] base-32 digits of [n], most significant first. *)
Fixpoint digits_be (k : nat) (n : Z) : list Z :=
  match k with
  | O => []
  | S k' => digits_be k' (Z.shiftr n 5) ++ [Z.land n 31]
  end.

(** [ulid.base32.encode_ulid], read on the 128-bit value of the 16 bytes:
    26 digits of 5 bits, the first one carrying the top 3 bits. *)
Definition encode_ulid (n : Z) : str := map encode_digit (digits_be 26 n).

(** [ulid.base32.decode_ulid]: every character must decode
    ([str_to_bytes]); a first digit above [7] raises ("Timestamp value too
    large"); the 26 digits are then packed into 16 bytes, the first byte
    keeping the low 8 bits of [(d0 << 5) | d1]. *)
Definition decode_ulid (s : str) : result id_error Z :=
  let ds := map decode_digit s in
  if existsb (fun d => 31 <? d) ds then Err NonBase32Character
  else if 7 <? hd 0 ds then Err TimestampTooLarge
  else Ok (Z.land (fold_left (fun acc d => Z.lor (Z.shiftl acc 5) d) ds 0)
                  (Z.ones 128)).

(** [Id.__init__] on a [str], and [Id.serialize] ([str(self)]). *)
Definition Id_of_str (value : str) : result id_error Z :=
  if negb (Nat.eqb (List.length value) 26) then Err InvalidULIDString
  else decode_ulid value.

Definition Id_serialize (n : Z) : str := encode_ulid n.

(** [Timestamp.validate] on an [int] ([Timestamp.__new__] keeps it), and
    [Timestamp.serialize] ([int(self)]). *)
Definition Timestamp_validate_int (v : Z) : Z := v.

Definition Timestamp_serialize (t : Z) : Numbers.wire := Numbers.WInt t.

End Ident.

(** ** [json_schema_to_model] and its helpers *)
Module Schema.

Local Open Scope string_scope.

(** A decoded JSON document (objects as Python dicts, in insertion order). *)
Inductive json :=
| JNull
| JBool (b : bool)
| JInt (z : Z)
| JStr (s : string)
| JArr (l : list json)
| JObj (kv : list (string * json)).

(** [KeyError], [ValueError], and the other exceptions ([TypeError],
    [AttributeError]) the helpers can raise on ill-shaped input. *)
Inductive exn :=
| KeyError
| ValueError (msg : string)
| OtherError.

(** The Python types the generated fields get. *)
Inductive pytype :=
| TInt | TStr | TFloat | TBool
| TSequence (t : pytype)
| TList | TDict
| TModel (name : string) (fields : list (string * pytype)).

(** A [dict] with [str] keys, in insertion order. *)
Definition dict (A : Type) := list (string * A).

Fixpoint dict_get {A} (k : string) (d : dict A) : option A :=
  match d with
  | [] => None
  | (k', v) :: t => if String.eqb k k' then Some v else dict_get k t
  end.

(** [d[k] = v]: replaces in place, or appends a new key. *)
Fixpoint dict_set {A} (k : string) (v : A) (d : dict A) : dict A :=
  match d with
  | [] => [(k, v)]
  | (k', v') :: t => if String.eqb k k' then (k, v) :: t else (k', v') :: dict_set k v t
  end.

(** [d.pop(k)]. *)
Fixpoint dict_pop {A} (k : string) (d : dict A) : dict A :=
  match d with
  | [] => []
  | (k', v') :: t => if String.eqb k k' then t else (k', v') :: dict_pop k t
  end.

Definition dict_getitem {A} (k : string) (d : dict A) : result exn A :=
  match dict_get k d with Some v => Ok v | None => Err KeyError end.

(** [needle in hay] for two [str]s. *)
Fixpoint str_contains (needle hay : string) : bool :=
  String.prefix needle hay ||
  match hay with
  | EmptyString => false
  | String _ t => str_contains needle t
  end.

(** [k in v] for a [str] key [k]. *)
Definition py_contains (k : string) (v : json) : result exn bool :=
  match v with
  | JObj kv => Ok (match dict_get k kv with Some _ => true | None => false end)
  | JStr s => Ok (str_contains k s)
  | JArr l => Ok (existsb (fun e => match e with JStr s => String.eqb s k | _ => false end) l)
  | _ => Err OtherError
  end.

(** [v[k]] for a [str] key [k]. *)
Definition py_getitem (v : json) (k : string) : result exn json :=
  match v with
  | JObj kv => dict_getitem k kv
  | _ => Err OtherError
  end.

(** [d[key]] and [key in d] for a JSON value used as the key of a dict
    with [str] keys (a dict or list key is unhashable). *)
Definition key_getitem {A} (key : json) (d : dict A) : result exn A :=
  match key with
  | JStr s => dict_getitem s d
  | JObj _ | JArr _ => Err OtherError
  | _ => Err KeyError
  end.

Definition key_contains {A} (key : json) (d : dict A) : result exn bool :=
  match key with
  | JStr s => Ok (match dict_get s d with Some _ => true | None => false end)
  | JObj _ | JArr _ => Err OtherError
  | _ => Ok false
  end.

(** [primitive_map]. *)
Definition primitive_map : dict pytype :=
  [("integer", TInt); ("string", TStr); ("number", TFloat); ("boolean", TBool)].

Definition cannot_convert : exn := ValueError "Cannot convert to Python type".

Definition is_jstr (v : json) (s : string) : bool :=
  match v with JStr s' => String.eqb s' s | _ => false end.

(** [_json_schema_type_to_python_type]. *)
Definition json_schema_type_to_python_type (jst : json) (defs : dict pytype)
  : result exn pytype :=
  let from_ref :=
    has_ref <- py_contains "$ref" jst ;;
    if has_ref then r <- py_getitem jst "$ref" ;; key_getitem r defs
    else Err cannot_convert in
  has_type <- py_contains "type" jst ;;
  if has_type then
    t <- py_getitem jst "type" ;;
    is_prim <- key_contains t primitive_map ;;
    if is_prim then key_getitem t primitive_map
    else if is_jstr t "array" then
      has_items <- py_contains "items" jst ;;
      if has_items then
        items <- py_getitem jst "items" ;;
        items_has_type <- py_contains "type" items ;;
        if items_has_type then
          it <- py_getitem items "type" ;;
          tt <- key_getitem it primitive_map ;;
          Ok (TSequence tt)                 (* isinstance(tt, type) holds *)
        else
          items_has_ref <- py_contains "$ref" items ;;
          if items_has_ref then
            reftype <- py_getitem items "$ref" ;;
            known <- key_contains reftype defs ;;
            if known then m <- key_getitem reftype defs ;; Ok (TSequence m)
            else Err cannot_convert
          else Ok TList
      else Ok TList
    else if is_jstr t "object" then
      has_ref <- py_contains "$ref" jst ;;
      if has_ref then r <- py_getitem jst "$ref" ;; key_getitem r defs
      else Ok TDict
    else from_ref
  else from_ref.

Section Reconstruction.
(** pydantic's [to_snake], and [create_model(name, __base__=base_model,
    **fields)] (which may raise). *)
Variable to_snake : string -> string.
Variable create_model : string -> dict pytype -> result exn pytype.

(** [d.items()] ([AttributeError] unless [d] is a dict). *)
Definition json_items (v : json) : result exn (dict json) :=
  match v with JObj kv => Ok kv | _ => Err OtherError end.

(** The dict comprehension
    [{to_snake(k): (_json_schema_type_to_python_type(v, defs), ...) ...}]. *)
Fixpoint field_definitions (props : dict json) (defs : dict pytype) (acc : dict pytype)
  : result exn (dict pytype) :=
  match props with
  | [] => Ok acc
  | (k, v) :: rest =>
      t <- json_schema_type_to_python_type v defs ;;
      field_definitions rest defs (dict_set (to_snake k) t acc)
  end.

(** [_property_to_model] ([isinstance(dynamic_model, type)] holds). *)
Definition property_to_model (schema : json) (defs : dict pytype) : result exn pytype :=
  has_title <- py_contains "title" schema ;;
  class_name <- (if has_title
                 then t <- py_getitem schema "title" ;;
                      Ok (match t with JStr s => s | _ => "GeneratedModel" end)
                 else Ok "GeneratedModel") ;;
  props <- py_getitem schema "properties" ;;
  kv <- json_items props ;;
  fields <- field_definitions kv defs [] ;;
  create_model class_name fields.

(** The state of the fixed-point loop: [unresolved_refs] (the caller's
    [$defs] dict itself) and [resolved_refs]. *)
Record loop_state := {
  unresolved : dict json;
  resolved : dict pytype
}.

Definition ref_key (k : string) : string := "#/$defs/" ++ k.

(** One [for k in key_seq] pass; a raised exception other than
    [KeyError] leaves the pass with the state reached so far. *)
Fixpoint resolve_pass (key_seq : list string) (st : loop_state)
  : option exn * loop_state :=
  match key_seq with
  | [] => (None, st)
  | k :: ks =>
      match (entry <- dict_getitem k (unresolved st) ;;
             property_to_model entry (resolved st)) with
      | Ok m =>
          resolve_pass ks {| unresolved := dict_pop k (unresolved st);
                             resolved := dict_set (ref_key k) m (resolved st) |}
      | Err KeyError => resolve_pass ks st
      | Err e => (Some e, st)
      end
  end.

Inductive loop_outcome :=
| LoopDone
| LoopRaised (e : exn)
| LoopOutOfFuel.

(** [while unresolved_refs: ...], run for at most [fuel] iterations. *)
Fixpoint resolve_loop (fuel : nat) (st : loop_state) : loop_outcome * loop_state :=
  match unresolved st with
  | [] => (LoopDone, st)
  | _ =>
      match fuel with
      | O => (LoopOutOfFuel, st)
      | S fuel' =>
          let before_len := List.length (unresolved st) in
          match resolve_pass (map fst (unresolved st)) st with
          | (Some e, st') => (LoopRaised e, st')
          | (None, st') =>
              if Nat.eqb before_len (List.length (unresolved st'))
              then (LoopRaised (ValueError "Cannot resolve all references"), st')
              else resolve_loop fuel' st'
          end
      end
  end.

Inductive outcome :=
| Returned (m : pytype)
| Raised (e : exn)
| Diverged.

Definition truthy (v : json) : bool :=
  match v with
  | JNull => false
  | JBool b => b
  | JInt z => negb (z =? 0)%Z
  | JStr s => negb (String.eqb s "")
  | JArr l => match l with [] => false | _ => true end
  | JObj kv => match kv with [] => false | _ => true end
  end.

Definition finish (lo : loop_outcome) (st : loop_state) (doc : dict json) : outcome :=
  match lo with
  | LoopDone =>
      match property_to_model (JObj doc) (resolved st) with
      | Ok m => Returned m
      | Err e => Raised e
      end
  | LoopRaised e => Raised e
  | LoopOutOfFuel => Diverged
  end.

(** [json_schema_to_model(json_schema, base_model)]: the outcome, the final
    [resolved_refs], and the caller's document afterwards (its [$defs] dict
    is the one the loop pops from). *)
Definition json_schema_to_model_run (doc : dict json)
  : outcome * dict pytype * dict json :=
  match dict_get "properties" doc with
  | None => (Raised (ValueError "properties key is not found in json_schema"), [], doc)
  | Some _ =>
      match dict_get "$defs" doc with
      | Some (JObj defs) =>
          let '(lo, st) := resolve_loop (S (List.length defs))
                             {| unresolved := defs; resolved := [] |} in
          let doc' := dict_set "$defs" (JObj (unresolved st)) doc in
          (finish lo st doc', resolved st, doc')
      | Some v =>
          if truthy v then (Raised OtherError, [], doc)   (* len() / .keys() *)
          else (finish LoopDone {| unresolved := []; resolved := [] |} doc, [], doc)
      | None =>
          (finish LoopDone {| unresolved := []; resolved := [] |} doc, [], doc)
      end
  end.

Definition json_schema_to_model (doc : dict json) : outcome * dict json :=
  let '(o, _, doc') := json_schema_to_model_run doc in (o, doc').

End Reconstruction.

(** The entries of [defs] whose reference [#/$defs/k] is not in the
    [resolved_refs] dict [R]. *)
Definition never_resolved (R : dict pytype) (defs : dict json) : dict json :=
  filter (fun kv => match dict_get (ref_key (fst kv)) R with
                    | Some _ => false
                    | None => true
                    end) defs.

End Schema.

(** ** [BaseUpdateTimeAwareModel.__setattr__] *)
Module UpdateTime.

Local Open Scope string_scope.

(** Field values of a model instance. *)
Inductive value :=
| VTimestamp (t : Z)
| VInt (z : Z)
| VStr (s : string)
| VNone.

Inductive model_error :=
| NoSuchField                       (* '"X" object has no field "name"' *)
| FrozenField                       (* ValidationError frozen_field *)
| InvalidValue.                     (* ValidationError of the field's type *)

(** A declared field: [frozen] flag and its validator. *)
Record field_info := {
  fi_frozen : bool;
  fi_validate : value -> result model_error value
}.

(** A model instance: its field values. *)
Definition instance := list (string * value).

(** The stateful code runs in a state-and-error monad over the instance;
    a raised exception leaves the instance as it was at the raise. *)
Definition M (A : Type) := instance -> result model_error A * instance.

Definition ret {A} (a : A) : M A := fun s => (Ok a, s).
Definition mbind {A B} (m : M A) (k : A -> M B) : M B :=
  fun s => match m s with
           | (Ok a, s') => k a s'
           | (Err e, s') => (Err e, s')
           end.
Definition throw {A} (e : model_error) : M A := fun s => (Err e, s).

Notation "x <-- m ;;; k" := (mbind m (fun x => k))
  (at level 61, m at next level, right associativity).

Fixpoint inst_get (k : string) (d : instance) : option value :=
  match d with
  | [] => None
  | (k', v) :: t => if String.eqb k k' then Some v else inst_get k t
  end.

Fixpoint inst_set (k : string) (v : value) (d : instance) : instance :=
  match d with
  | [] => [(k, v)]
  | (k', v') :: t => if String.eqb k k' then (k, v) :: t else (k', v') :: inst_set k v t
  end.

Section Models.
(** [dateutil.parser.parse(text)] as microseconds since the epoch. *)
Variable parse_datetime : string -> option Z.

(** [Timestamp.validate]. *)
Definition timestamp_validate (v : value) : result model_error value :=
  match v with
  | VTimestamp t => Ok (VTimestamp t)
  | VInt z => Ok (VTimestamp z)
  | VStr s => match parse_datetime s with
              | Some t => Ok (VTimestamp t)
              | None => Err InvalidValue
              end
  | VNone => Err InvalidValue
  end.

(** The fields of a [BaseUpdateTimeAwareModel] subclass: [created_at]
    (frozen), [updated_at], then the subclass's own fields. *)
Definition class_fields (own : list (string * field_info)) : list (string * field_info) :=
  ("created_at", {| fi_frozen := true; fi_validate := timestamp_validate |})
  :: ("updated_at", {| fi_frozen := false; fi_validate := timestamp_validate |})
  :: own.

Fixpoint field_lookup (k : string) (fs : list (string * field_info)) : option field_info :=
  match fs with
  | [] => None
  | (k', f) :: t => if String.eqb k k' then Some f else field_lookup k t
  end.

(** pydantic's [is_valid_field_name] fails: the name starts with [_]. *)
Definition is_private_name (name : string) : bool :=
  match name with
  | String c _ => Ascii.eqb c "_"%char
  | EmptyString => false
  end.

(** pydantic's [BaseModel.__setattr__] with [validate_assignment=True], for
    a class that declares no class variables and no properties: a name
    starting with [_] is stored as given ([object.__setattr__], or the
    private-attribute dict), unvalidated; a field is checked for [frozen]
    and validated; any other name raises. *)
Definition pydantic_setattr (own : list (string * field_info)) (name : string) (v : value)
  : M unit :=
  if is_private_name name then fun s => (Ok tt, inst_set name v s) else
  match field_lookup name (class_fields own) with
  | None => throw NoSuchField
  | Some f =>
      if fi_frozen f then throw FrozenField
      else match fi_validate f v with
           | Err e => throw e
           | Ok v' => fun s => (Ok tt, inst_set name v' s)
           end
  end.

(** [BaseUpdateTimeAwareModel.__setattr__]; [now] is the value
    [Timestamp.now()] returns when it is called. *)
Definition update_time_aware_setattr (own : list (string * field_info)) (now : Z)
  (name : string) (v : value) : M unit :=
  if String.eqb name "updated_at" then pydantic_setattr own name v
  else
    _ <-- pydantic_setattr own name v ;;;
    pydantic_setattr own "updated_at" (VTimestamp now).

End Models.

End UpdateTime.

(** ** [BaseSettings.load] ([src/oltl/settings.py]) and
    [patch_config_value] ([src/oltl/utils.py]) *)
Module Settings.

Local Open Scope string_scope.

(** The two [model_config] keys [patch_config_value] accepts. *)
Inductive config_key := JsonFileKey | YamlFileKey.

(** [str.endswith]. *)
Definition endswith (s suffix : string) : bool :=
  let n := String.length s in
  let m := String.length suffix in
  Nat.leb m n && String.eqb (substring (n - m) m s) suffix.

Section Load.
(** The values [model_config] holds ([Any]); a [str] stored there; the
    exception and the instance of [cls()]. *)
Variable V : Type.
Variable str_value : string -> V.
Variables E S : Type.

(** The class's [model_config] entries [json_file] and [yaml_file]. *)
Record model_config := { json_file : V; yaml_file : V }.

Definition config_get (c : model_config) (k : config_key) : V :=
  match k with JsonFileKey => json_file c | YamlFileKey => yaml_file c end.

(** [cls.model_config[key] = value]. *)
Definition config_set (c : model_config) (k : config_key) (v : V) : model_config :=
  match k with
  | JsonFileKey => {| json_file := v; yaml_file := yaml_file c |}
  | YamlFileKey => {| json_file := json_file c; yaml_file := v |}
  end.

(** [with patch_config_value(cls, key, value): return body()]: the
    generator sets the key, yields, and resets it after the [yield]; with no
    [try]/[finally], an exception raised by the body is thrown in at the
    [yield] and propagates, so the reset does not run. *)
Definition patch_config_value {A} (key : config_key) (value : V)
  (body : model_config -> result E A) (c : model_config) : result E A * model_config :=
  let old_value := config_get c key in
  let c1 := config_set c key value in
  match body c1 with
  | Ok a => (Ok a, config_set c1 key old_value)
  | Err e => (Err e, c1)
  end.

(** [BaseSettings.load]; [cls] is [cls()], which reads the configuration. *)
Definition load (cls : model_config -> result E S) (setting_file_path : option string)
  (c : model_config) : result E S * model_config :=
  match setting_file_path with
  | Some p =>
      if endswith p ".json" then patch_config_value JsonFileKey (str_value p) cls c
      else if endswith p ".yaml" || endswith p ".yml"
      then patch_config_value YamlFileKey (str_value p) cls c
      else (cls c, c)
  | None => (cls c, c)
  end.

End Load.

Arguments json_file {V} _.
Arguments yaml_file {V} _.

End Settings.

(** ** Concrete classes of the test suite ([src/tests/fixtures.py]) and
    documents for [json_schema_to_model] *)
Module Fixtures.

(** [class TrimmedNormalized(TrimmedStringMixIn, NormalizedStringMixIn)]. *)
Definition TrimmedNormalized {regex : Type} : Strings.str_type regex :=
  {| Strings.st_mro := [Strings.TrimmedStringMixIn; Strings.NormalizedStringMixIn];
     Strings.st_min_length := None; Strings.st_max_length := None;
     Strings.st_pattern := None; Strings.st_repl := None;
     Strings.st_pattern_to_repl_map := None |}.

(** The input ["　　not　trimmed　　"] of the test. *)
Definition trimmed_normalized_input : str :=
  [12288; 12288] ++ s2z "not" ++ [12288] ++ s2z "trimmed" ++ [12288; 12288].

(** A class [NormalizedSpaceSub(NormalizedStringMixIn,
    RegexSubstitutedStringMixIn)] whose [get_pattern_to_repl_map] is
    [{re.compile(" "): "_"}]. *)
Definition NormalizedSpaceSub : Strings.str_type Strings.char_class :=
  {| Strings.st_mro := [Strings.NormalizedStringMixIn; Strings.RegexSubstitutedStringMixIn];
     Strings.st_min_length := None; Strings.st_max_length := None;
     Strings.st_pattern := None; Strings.st_repl := None;
     Strings.st_pattern_to_repl_map := Some [([32], [95])] |}.

(** A class [Normalized(NormalizedStringMixIn)] with no constraint. *)
Definition NormalizedOnly {regex : Type} : Strings.str_type regex :=
  {| Strings.st_mro := [Strings.NormalizedStringMixIn];
     Strings.st_min_length := None; Strings.st_max_length := None;
     Strings.st_pattern := None; Strings.st_repl := None;
     Strings.st_pattern_to_repl_map := None |}.

(** [class UpperAndLowerBoundInteger(UpperBoundIntegerMixIn,
    LowerBoundIntegerMixIn)] with bounds 3 and 5. *)
Definition UpperAndLowerBoundInteger : Numbers.int_type :=
  {| Numbers.it_mro := [Numbers.UpperBoundIntegerMixIn; Numbers.LowerBoundIntegerMixIn];
     Numbers.it_min_value := Some 3; Numbers.it_max_value := Some 5 |}.

(** [class UpperAndLowerBoundFloat(UpperBoundFloatMixIn,
    LowerBoundFloatMixIn)] with bounds 3.0 and 5.0. *)
Definition UpperAndLowerBoundFloat : Numbers.float_type :=
  {| Numbers.ft_mro := [Numbers.UpperBoundFloatMixIn; Numbers.LowerBoundFloatMixIn];
     Numbers.ft_min_value := Some 3%float; Numbers.ft_max_value := Some 5%float |}.

Import Schema.
Local Open Scope string_scope.

(** [{"properties": {"n": {"type": "integer"}}}]. *)
Definition def_B : json := JObj [("properties", JObj [("n", JObj [("type", JStr "integer")])])].

(** A definition whose field is an array of [#/$defs/B]. *)
Definition def_A_array : json :=
  JObj [("properties",
         JObj [("xs", JObj [("type", JStr "array");
                            ("items", JObj [("$ref", JStr "#/$defs/B")])])])].

(** A definition whose field is a direct reference to [#/$defs/B]. *)
Definition def_A_ref : json :=
  JObj [("properties", JObj [("b", JObj [("$ref", JStr "#/$defs/B")])])].

Definition top_properties : json := JObj [("a", JObj [("$ref", JStr "#/$defs/A")])].

(** Documents whose [$defs] list [A] before the [B] it refers to. *)
Definition doc_array_ref : dict json :=
  [("properties", top_properties); ("$defs", JObj [("A", def_A_array); ("B", def_B)])].

Definition doc_direct_ref : dict json :=
  [("properties", top_properties); ("$defs", JObj [("A", def_A_ref); ("B", def_B)])].

(** A document whose only definition refers to itself. *)
Definition doc_self_ref : dict json :=
  [("properties", top_properties);
   ("$defs", JObj [("A", JObj [("properties",
                                JObj [("a", JObj [("$ref", JStr "#/$defs/A")])])])])].

(** The same two definitions with [B] first. *)
Definition doc_array_ref_in_order : dict json :=
  [("properties", top_properties); ("$defs", JObj [("B", def_B); ("A", def_A_array)])].

(** A document whose only definition refers to a missing one. *)
Definition doc_missing_ref : dict json :=
  [("properties", top_properties);
   ("$defs", JObj [("A", JObj [("properties",
                                JObj [("z", JObj [("$ref", JStr "#/$defs/Z")])])])])].

(** [create_model] building the model type from its name and fields. *)
Definition plain_create_model (name : string) (fields : dict pytype) : result exn pytype :=
  Ok (TModel name fields).

End Fixtures.

(** ** The transform order as the specification words it *)
Module SpecOrder.
Import Strings.

Section Claimed.
Context {regex : Type} (re_sub : regex -> str -> str -> str)
  (pattern_is_match : regex -> str -> bool) (to_snake to_camel nfkc : str -> str).

(** For a class composing [A] then [B]: [B]'s step first, then [A]'s, then
    the remaining classes, then the assembled check. *)
Definition claimed_validate (T : str_type regex) (s : str) : result str_error str :=
  match st_mro T with
  | A :: B :: rest =>
      d <- extra_constraint_dict regex T (st_mro T) ;;
      s1 <- transform_step regex re_sub to_snake to_camel nfkc T B s ;;
      s2 <- transform_step regex re_sub to_snake to_camel nfkc T A s1 ;;
      s3 <- proc_str regex re_sub to_snake to_camel nfkc T rest s2 ;;
      str_check regex pattern_is_match d s3
  | _ => validate regex re_sub pattern_is_match to_snake to_camel nfkc T s
  end.
End Claimed.

End SpecOrder.

(** * Proofs *)

(** ** Normalization ([normalize_jptext]) *)
Module UtilsProofs.
Import Utils.

Lemma parentheses_left_sub_cons2 (a b : Z) (rest : str) :
  parentheses_left_sub (a :: b :: rest)
  = if negb (py_isspace a) && negb (a =? 40) && (b =? 40)
    then a :: 32 :: 40 :: parentheses_left_sub rest
    else a :: parentheses_left_sub (b :: rest).
Proof. reflexivity. Qed.

Lemma spec_space_before_open_cons2 (a b : Z) (rest : str) :
  spec_space_before_open (a :: b :: rest)
  = if negb (py_isspace a) && negb (a =? 40) && (b =? 40)
    then a :: 32 :: spec_space_before_open (b :: rest)
    else a :: spec_space_before_open (b :: rest).
Proof. reflexivity. Qed.

Lemma parentheses_right_sub_cons2 (a b : Z) (rest : str) :
  parentheses_right_sub (a :: b :: rest)
  = if (a =? 41) && negb (py_isspace b) && negb (b =? 41)
    then 41 :: 32 :: b :: parentheses_right_sub rest
    else a :: parentheses_right_sub (b :: rest).
Proof. reflexivity. Qed.

Lemma spec_space_after_close_cons2 (a b : Z) (rest : str) :
  spec_space_after_close (a :: b :: rest)
  = if (a =? 41) && negb (py_isspace b) && negb (b =? 41)
    then a :: 32 :: spec_space_after_close (b :: rest)
    else a :: spec_space_after_close (b :: rest).
Proof. reflexivity. Qed.

Lemma spec_space_before_open_paren (rest : str) :
  spec_space_before_open (40 :: rest) = 40 :: spec_space_before_open rest.
Proof. destruct rest; reflexivity. Qed.

Lemma spec_space_after_close_other (b : Z) (rest : str) :
  b <> 41 -> spec_space_after_close (b :: rest) = b :: spec_space_after_close rest.
Proof.
  intros Hb. destruct rest as [|c rest]; [reflexivity|].
  rewrite spec_space_after_close_cons2, (proj2 (Z.eqb_neq b 41) Hb). reflexivity.
Qed.

(** The non-overlapping left-to-right [re.sub] scans insert exactly the
    spaces the specification describes. *)
Lemma parentheses_left_sub_spec (s : str) :
  parentheses_left_sub s = spec_space_before_open s.
Proof.
  remember (List.length s) as n eqn:Hn. revert s Hn.
  induction n as [n IH] using lt_wf_ind.
  intros [|a [|b rest]] Hn; try reflexivity.
  rewrite parentheses_left_sub_cons2, spec_space_before_open_cons2.
  destruct (negb (py_isspace a) && negb (a =? 40) && (b =? 40)) eqn:E.
  - apply andb_true_iff in E as [_ Eb]. apply Z.eqb_eq in Eb. subst b.
    rewrite spec_space_before_open_paren.
    rewrite (IH (List.length rest)) by (simpl in Hn; lia || reflexivity); reflexivity.
  - rewrite (IH (List.length (b :: rest))) by (simpl in *; lia || reflexivity).
    reflexivity.
Qed.

Lemma parentheses_right_sub_spec (s : str) :
  parentheses_right_sub s = spec_space_after_close s.
Proof.
  remember (List.length s) as n eqn:Hn. revert s Hn.
  induction n as [n IH] using lt_wf_ind.
  intros [|a [|b rest]] Hn; try reflexivity.
  rewrite parentheses_right_sub_cons2, spec_space_after_close_cons2.
  destruct ((a =? 41) && negb (py_isspace b) && negb (b =? 41)) eqn:E.
  - apply andb_true_iff in E as [E1 Eb]. apply andb_true_iff in E1 as [Ea _].
    apply Z.eqb_eq in Ea. subst a.
    apply negb_true_iff, Z.eqb_neq in Eb.
    rewrite (spec_space_after_close_other b rest Eb).
    rewrite (IH (List.length rest)) by (simpl in Hn; lia || reflexivity); reflexivity.
  - rewrite (IH (List.length (b :: rest))) by (simpl in *; lia || reflexivity).
    reflexivity.
Qed.

(** C8: for every input, [normalize_jptext] is NFKC, then the substitution
    table, then a space inserted between a non-space, non-["("] character
    and a following ["("], then a space inserted between [")"] and a
    following non-space, non-[")"] character; it is a total function. *)
Theorem normalize_jptext_steps (nfkc : str -> str) (x : str) :
  normalize_jptext nfkc x
  = spec_space_after_close (spec_space_before_open (translate (nfkc x))).
Proof.
  unfold normalize_jptext.
  rewrite parentheses_left_sub_spec, parentheses_right_sub_spec. reflexivity.
Qed.

End UtilsProofs.

(** ** The string pipeline *)
Module StringProofs.
Import Strings Fixtures SpecOrder.

(** C5: for [TrimmedNormalized], whatever the regex engine and case
    converters, with an NFKC that maps U+3000 to a space (and fixes the
    ASCII letters), ["　　not　trimmed　　"] validates to ["not trimmed"]:
    the normalization runs in [_proc_str], before [str_schema]'s strip. *)
Theorem trimmed_normalized_not_trimmed (regex : Type)
  (re_sub : regex -> str -> str -> str) (pattern_is_match : regex -> str -> bool)
  (to_snake to_camel nfkc : str -> str) :
  nfkc trimmed_normalized_input
  = map (fun c => if c =? 12288 then 32 else c) trimmed_normalized_input ->
  validate regex re_sub pattern_is_match to_snake to_camel nfkc TrimmedNormalized
    trimmed_normalized_input
  = Ok (s2z "not trimmed").
Proof.
  intros Hn. unfold validate, TrimmedNormalized. cbn [st_mro].
  cbn [proc_str transform_step rbind].
  unfold Utils.normalize_jptext. rewrite Hn. reflexivity.
Qed.

Lemma trimmed_normalized_witness :
  Utils.nfkc_fragment trimmed_normalized_input
  = map (fun c => if c =? 12288 then 32 else c) trimmed_normalized_input
  /\ validate char_class char_class_sub char_class_search (fun s => s) (fun s => s)
       Utils.nfkc_fragment TrimmedNormalized trimmed_normalized_input
     = Ok (s2z "not trimmed").
Proof.
  split; [reflexivity|].
  apply (trimmed_normalized_not_trimmed char_class char_class_sub char_class_search
           (fun s => s) (fun s => s) Utils.nfkc_fragment).
  reflexivity.
Defined.

(** The code's order differs from the stated one: for
    [NormalizedSpaceSub(NormalizedStringMixIn, RegexSubstitutedStringMixIn)]
    the ideographic space is normalized to a space and then substituted
    by ["_"]; substituting first and normalizing after gives a space. *)
Lemma transform_order_counterexample :
  validate char_class char_class_sub char_class_search (fun s => s) (fun s => s)
    Utils.nfkc_fragment NormalizedSpaceSub [12288] = Ok [95]
  /\ claimed_validate char_class_sub char_class_search (fun s => s) (fun s => s)
       Utils.nfkc_fragment NormalizedSpaceSub [12288] = Ok [32].
Proof. split; reflexivity. Qed.

Lemma rbind_assoc {E A B C} (m : result E A) (f : A -> result E B) (g : B -> result E C) :
  rbind (rbind m f) g = rbind m (fun a => rbind (f a) g).
Proof. destruct m; reflexivity. Qed.

(** C1 (amended): for every string class whose MRO starts with [A] then
    [B], validation runs [A]'s transform first, hands its result to [B]'s,
    then to the rest of the MRO, and only then runs the assembled check. *)
Theorem transforms_run_left_to_right (regex : Type)
  (re_sub : regex -> str -> str -> str) (pattern_is_match : regex -> str -> bool)
  (to_snake to_camel nfkc : str -> str)
  (T : str_type regex) (A B : str_mixin) (rest : list str_mixin) (s : str) :
  st_mro T = A :: B :: rest ->
  validate regex re_sub pattern_is_match to_snake to_camel nfkc T s
  = (d <- extra_constraint_dict regex T (st_mro T) ;;
     s1 <- transform_step regex re_sub to_snake to_camel nfkc T A s ;;
     s2 <- transform_step regex re_sub to_snake to_camel nfkc T B s1 ;;
     s3 <- proc_str regex re_sub to_snake to_camel nfkc T rest s2 ;;
     str_check regex pattern_is_match d s3).
Proof.
  intros Hm. unfold validate. rewrite Hm. cbn [proc_str].
  destruct (extra_constraint_dict regex T (A :: B :: rest)) as [d|e]; [|reflexivity].
  cbn [rbind]. rewrite !rbind_assoc.
  destruct (transform_step regex re_sub to_snake to_camel nfkc T A s); [|reflexivity].
  cbn [rbind]. rewrite !rbind_assoc. reflexivity.
Qed.

Lemma transforms_run_left_to_right_witness :
  st_mro NormalizedSpaceSub
  = NormalizedStringMixIn :: RegexSubstitutedStringMixIn :: []
  /\ validate char_class char_class_sub char_class_search (fun s => s) (fun s => s)
       Utils.nfkc_fragment NormalizedSpaceSub [12288]
     = (d <- extra_constraint_dict char_class NormalizedSpaceSub (st_mro NormalizedSpaceSub) ;;
        s1 <- transform_step char_class char_class_sub (fun s => s) (fun s => s)
                Utils.nfkc_fragment NormalizedSpaceSub NormalizedStringMixIn [12288] ;;
        s2 <- transform_step char_class char_class_sub (fun s => s) (fun s => s)
                Utils.nfkc_fragment NormalizedSpaceSub RegexSubstitutedStringMixIn s1 ;;
        s3 <- proc_str char_class char_class_sub (fun s => s) (fun s => s)
                Utils.nfkc_fragment NormalizedSpaceSub [] s2 ;;
        str_check char_class char_class_search d s3).
Proof.
  split; [reflexivity|].
  apply (transforms_run_left_to_right char_class char_class_sub char_class_search
           (fun s => s) (fun s => s) Utils.nfkc_fragment NormalizedSpaceSub
           NormalizedStringMixIn RegexSubstitutedStringMixIn [] [12288]).
  reflexivity.
Defined.

End StringProofs.

(** ** The base64 codec *)
Module Base64Proofs.
Import Bytes.

Lemma lor_shiftl_small (a b k : Z) :
  0 <= k -> 0 <= b < 2 ^ k -> Z.lor (Z.shiftl a k) b = Z.shiftl a k + b.
Proof.
  intros Hk Hb.
  assert (Hl : Z.land (Z.shiftl a k) b = 0).
  { apply Z.bits_inj'. intros n Hn. rewrite Z.land_spec, Z.bits_0.
    destruct (Z.lt_ge_cases n k) as [Hlt|Hge].
    - rewrite Z.shiftl_spec_low by lia. reflexivity.
    - destruct (Z.eq_dec b 0) as [->|Hb0].
      + rewrite Z.bits_0. apply andb_false_r.
      + assert (Z.log2 b < k) by (apply Z.log2_lt_pow2; lia).
        rewrite (Z.bits_above_log2 b n) by lia. apply andb_false_r. }
  rewrite <- Z.lxor_lor by exact Hl. rewrite <- Z.add_nocarry_lxor by exact Hl.
  reflexivity.
Qed.

Lemma land_low (x : Z) (k : Z) : 0 <= k -> Z.land x (Z.ones k) = x mod 2 ^ k.
Proof. intros Hk. apply Z.land_ones. exact Hk. Qed.

Lemma land_63 (x : Z) : Z.land x 63 = x mod 64.
Proof. exact (land_low x 6 ltac:(lia)). Qed.

Lemma land_15 (x : Z) : Z.land x 15 = x mod 16.
Proof. exact (land_low x 4 ltac:(lia)). Qed.

Lemma land_3 (x : Z) : Z.land x 3 = x mod 4.
Proof. exact (land_low x 2 ltac:(lia)). Qed.

Lemma land_255 (x : Z) : Z.land x 255 = x mod 256.
Proof. exact (land_low x 8 ltac:(lia)). Qed.

Lemma shiftr_div (x k : Z) : 0 <= k -> Z.shiftr x k = x / 2 ^ k.
Proof. intros Hk. apply Z.shiftr_div_pow2. exact Hk. Qed.

Lemma shiftl_mul (x k : Z) : 0 <= k -> Z.shiftl x k = x * 2 ^ k.
Proof. intros Hk. apply Z.shiftl_mul_pow2. exact Hk. Qed.

(** Joining a high part and a low part of [k] bits. *)
Lemma join_bits (hi lo k : Z) :
  0 <= k -> 0 <= lo < 2 ^ k -> Z.lor (Z.shiftl hi k) lo = hi * 2 ^ k + lo.
Proof. intros Hk Hlo. rewrite lor_shiftl_small, shiftl_mul by assumption. reflexivity. Qed.

Ltac bytes_arith :=
  cbn [Z.pow Z.pow_pos Pos.iter Z.mul] in *; Z.div_mod_to_equations; lia.

Lemma combined_trio (b0 b1 b2 : Z) :
  0 <= b0 < 256 -> 0 <= b1 < 256 -> 0 <= b2 < 256 ->
  Z.lor (Z.lor (Z.shiftl b0 16) (Z.shiftl b1 8)) b2 = b0 * 65536 + b1 * 256 + b2.
Proof.
  intros H0 H1 H2.
  replace (Z.shiftl b0 16) with (Z.shiftl (Z.shiftl b0 8) 8)
    by (rewrite Z.shiftl_shiftl by lia; reflexivity).
  rewrite <- Z.shiftl_lor.
  rewrite (join_bits b0 b1 8) by (lia || (cbn; lia)).
  rewrite join_bits by (lia || (cbn; lia)). cbn. lia.
Qed.

Lemma combined_pair (b0 b1 : Z) :
  0 <= b0 < 256 -> 0 <= b1 < 256 -> Z.lor (Z.shiftl b0 8) b1 = b0 * 256 + b1.
Proof.
  intros H0 H1. rewrite join_bits by (lia || (cbn; lia)). cbn. lia.
Qed.

(** Every index below 64 has a character the decoding table maps back. *)
Lemma tables_inverse_check :
  forallb (fun i => (table_a2b_base64 (table_b2a_base64 i) =? i)
                    && negb (table_b2a_base64 i =? BASE64_PAD))
    (map Z.of_nat (seq 0 64)) = true.
Proof. reflexivity. Qed.

Lemma tables_inverse (i : Z) :
  0 <= i < 64 ->
  table_a2b_base64 (table_b2a_base64 i) = i /\ table_b2a_base64 i <> BASE64_PAD.
Proof.
  intros Hi.
  assert (Hin : In i (map Z.of_nat (seq 0 64))).
  { apply in_map_iff. exists (Z.to_nat i). split; [lia|]. apply in_seq. lia. }
  pose proof (proj1 (forallb_forall _ _) tables_inverse_check i Hin) as Hc.
  apply andb_true_iff in Hc as [Ha Hb]. apply negb_true_iff, Z.eqb_neq in Hb.
  apply Z.eqb_eq in Ha. split; assumption.
Qed.

Lemma table_b2a_ascii (i : Z) : table_b2a_base64 i < 128.
Proof.
  unfold table_b2a_base64.
  destruct (Z.ltb_spec i 26); [lia|].
  destruct (Z.ltb_spec i 52); [lia|].
  destruct (Z.ltb_spec i 62); [lia|].
  destruct (Z.eqb_spec i 62); lia.
Qed.

(** The four 6-bit digits of a trio, the two and three of a tail. *)
Lemma trio_digits (b0 b1 b2 : Z) :
  0 <= b0 < 256 -> 0 <= b1 < 256 -> 0 <= b2 < 256 ->
  let c := b0 * 65536 + b1 * 256 + b2 in
  Z.land (Z.shiftr c 18) 63 = b0 / 4
  /\ Z.land (Z.shiftr c 12) 63 = (b0 mod 4) * 16 + b1 / 16
  /\ Z.land (Z.shiftr c 6) 63 = (b1 mod 16) * 4 + b2 / 64
  /\ Z.land c 63 = b2 mod 64.
Proof.
  intros H0 H1 H2 c. subst c. rewrite !land_63, !shiftr_div by lia.
  repeat split; bytes_arith.
Qed.

Lemma pair_digits (b0 b1 : Z) :
  0 <= b0 < 256 -> 0 <= b1 < 256 ->
  let c := b0 * 256 + b1 in
  Z.shiftr c 10 = b0 / 4
  /\ Z.land (Z.shiftr c 4) 63 = (b0 mod 4) * 16 + b1 / 16
  /\ Z.land (Z.shiftl c 2) 63 = (b1 mod 16) * 4 + 0.
Proof.
  intros H0 H1 c. subst c. rewrite !land_63, !shiftr_div, shiftl_mul by lia.
  repeat split; bytes_arith.
Qed.

Lemma single_digits (b0 : Z) :
  0 <= b0 < 256 ->
  Z.shiftr b0 2 = b0 / 4 /\ Z.shiftl (Z.land b0 3) 4 = (b0 mod 4) * 16 + 0.
Proof.
  intros H0. rewrite land_3, shiftr_div, shiftl_mul by lia. split; bytes_arith.
Qed.

(** What the decoder rebuilds from consecutive digits. *)
Lemma rebuild_first (b0 r : Z) :
  0 <= b0 < 256 -> 0 <= r < 16 ->
  Z.land (Z.lor (Z.shiftl (b0 / 4) 2) (Z.shiftr ((b0 mod 4) * 16 + r) 4)) 255 = b0
  /\ Z.land ((b0 mod 4) * 16 + r) 15 = r.
Proof.
  intros H0 Hr. rewrite shiftr_div by lia. rewrite join_bits by (lia || bytes_arith).
  rewrite land_255, land_15. split; bytes_arith.
Qed.

Lemma rebuild_second (b1 r : Z) :
  0 <= b1 < 256 -> 0 <= r < 4 ->
  Z.land (Z.lor (Z.shiftl (b1 / 16) 4) (Z.shiftr ((b1 mod 16) * 4 + r) 2)) 255 = b1
  /\ Z.land ((b1 mod 16) * 4 + r) 3 = r.
Proof.
  intros H1 Hr. rewrite shiftr_div by lia. rewrite join_bits by (lia || bytes_arith).
  rewrite land_255, land_3. split; bytes_arith.
Qed.

Lemma rebuild_third (b2 : Z) :
  0 <= b2 < 256 -> Z.land (Z.lor (Z.shiftl (b2 / 64) 6) (b2 mod 64)) 255 = b2.
Proof.
  intros H2. rewrite join_bits by (lia || bytes_arith). rewrite land_255. bytes_arith.
Qed.

(** The loop on a digit character at each [quad_pos], and on padding. *)
Lemma step_digit (st : a2b_state) (i : Z) :
  0 <= i < 64 ->
  a2b_step st (table_b2a_base64 i)
  = if quad_pos st =? 0 then
      inl {| quad_pos := 1; leftchar := i; pads := 0; bin_data := bin_data st |}
    else if quad_pos st =? 1 then
      inl {| quad_pos := 2; leftchar := Z.land i 15; pads := 0;
             bin_data := Z.land (Z.lor (Z.shiftl (leftchar st) 2) (Z.shiftr i 4)) 255
                         :: bin_data st |}
    else if quad_pos st =? 2 then
      inl {| quad_pos := 3; leftchar := Z.land i 3; pads := 0;
             bin_data := Z.land (Z.lor (Z.shiftl (leftchar st) 4) (Z.shiftr i 2)) 255
                         :: bin_data st |}
    else
      inl {| quad_pos := 0; leftchar := 0; pads := 0;
             bin_data := Z.land (Z.lor (Z.shiftl (leftchar st) 6) i) 255 :: bin_data st |}.
Proof.
  intros Hi. destruct (tables_inverse i Hi) as [Ha Hp].
  unfold a2b_step. rewrite (proj2 (Z.eqb_neq _ _) Hp), Ha.
  replace (64 <=? i) with false by (symmetry; apply Z.leb_gt; lia).
  reflexivity.
Qed.

Lemma a2b_loop_app (st : a2b_state) (l1 l2 : list Z) :
  a2b_loop st (l1 ++ l2)
  = match a2b_loop st l1 with inl st' => a2b_loop st' l2 | inr st' => inr st' end.
Proof.
  revert st. induction l1 as [|c l1 IH]; intros st; [reflexivity|].
  cbn [app a2b_loop]. destruct (a2b_step st c); [apply IH|reflexivity].
Qed.

Lemma a2b_loop_trio (st : a2b_state) (b0 b1 b2 : Z) :
  quad_pos st = 0 -> 0 <= b0 < 256 -> 0 <= b1 < 256 -> 0 <= b2 < 256 ->
  a2b_loop st (encode_trio b0 b1 b2)
  = inl {| quad_pos := 0; leftchar := 0; pads := 0;
           bin_data := b2 :: b1 :: b0 :: bin_data st |}.
Proof.
  intros Hq H0 H1 H2. unfold encode_trio. rewrite combined_trio by assumption.
  destruct (trio_digits b0 b1 b2 H0 H1 H2) as (E0 & E1 & E2 & E3). cbv zeta in *.
  rewrite E0, E1, E2, E3.
  cbn [a2b_loop]. rewrite step_digit by bytes_arith. rewrite Hq. cbn [Z.eqb].
  cbn [quad_pos leftchar bin_data].
  rewrite step_digit by bytes_arith. cbn [quad_pos leftchar bin_data Z.eqb Pos.eqb].
  destruct (rebuild_first b0 (b1 / 16) H0 ltac:(bytes_arith)) as [R0 L0].
  rewrite R0, L0.
  rewrite step_digit by bytes_arith. cbn [quad_pos leftchar bin_data Z.eqb Pos.eqb].
  destruct (rebuild_second b1 (b2 / 64) H1 ltac:(bytes_arith)) as [R1 L1].
  rewrite R1, L1.
  rewrite step_digit by bytes_arith. cbn [quad_pos leftchar bin_data Z.eqb Pos.eqb].
  rewrite (rebuild_third b2 H2). reflexivity.
Qed.

Lemma a2b_loop_single (st : a2b_state) (b0 : Z) :
  quad_pos st = 0 -> 0 <= b0 < 256 ->
  a2b_loop st (b2a_base64 [b0])
  = inr {| quad_pos := 2; leftchar := 0; pads := 2; bin_data := b0 :: bin_data st |}.
Proof.
  intros Hq H0. cbn [b2a_base64].
  destruct (single_digits b0 H0) as [E0 E1]. rewrite E0, E1.
  cbn [a2b_loop]. rewrite step_digit by bytes_arith. rewrite Hq. cbn [Z.eqb].
  cbn [quad_pos leftchar bin_data].
  rewrite step_digit by bytes_arith. cbn [quad_pos leftchar bin_data Z.eqb Pos.eqb].
  destruct (rebuild_first b0 0 H0 ltac:(lia)) as [R0 L0]. rewrite R0, L0.
  reflexivity.
Qed.

Lemma a2b_loop_pair (st : a2b_state) (b0 b1 : Z) :
  quad_pos st = 0 -> 0 <= b0 < 256 -> 0 <= b1 < 256 ->
  a2b_loop st (b2a_base64 [b0; b1])
  = inr {| quad_pos := 3; leftchar := 0; pads := 1; bin_data := b1 :: b0 :: bin_data st |}.
Proof.
  intros Hq H0 H1. cbn [b2a_base64]. rewrite combined_pair by assumption.
  destruct (pair_digits b0 b1 H0 H1) as (E0 & E1 & E2). cbv zeta in *.
  rewrite E0, E1, E2.
  cbn [a2b_loop]. rewrite step_digit by bytes_arith. rewrite Hq. cbn [Z.eqb].
  cbn [quad_pos leftchar bin_data].
  rewrite step_digit by bytes_arith. cbn [quad_pos leftchar bin_data Z.eqb Pos.eqb].
  destruct (rebuild_first b0 (b1 / 16) H0 ltac:(bytes_arith)) as [R0 L0].
  rewrite R0, L0.
  rewrite step_digit by bytes_arith. cbn [quad_pos leftchar bin_data Z.eqb Pos.eqb].
  destruct (rebuild_second b1 0 H1 ltac:(lia)) as [R1 L1]. rewrite R1, L1.
  reflexivity.
Qed.

(** The decoder's loop on an encoder's output rebuilds the data, ending
    either at a quad boundary or on the padding. *)
Lemma a2b_loop_b2a (data : list Z) :
  Forall (fun b => 0 <= b < 256) data ->
  forall st, quad_pos st = 0 ->
  exists st',
    ((a2b_loop st (b2a_base64 data) = inl st' /\ quad_pos st' = 0)
     \/ a2b_loop st (b2a_base64 data) = inr st')
    /\ bin_data st' = rev data ++ bin_data st.
Proof.
  remember (List.length data) as n eqn:Hn. revert data Hn.
  induction n as [n IH] using lt_wf_ind.
  intros [|b0 [|b1 [|b2 rest]]] Hn Hall st Hq.
  - exists st. split; [left; split; [reflexivity|exact Hq]|reflexivity].
  - inversion Hall as [|? ? Hb0 _]; subst.
    eexists. split; [right; apply a2b_loop_single; assumption|]. reflexivity.
  - inversion Hall as [|? ? Hb0 Hall1]; inversion Hall1 as [|? ? Hb1 _]; subst.
    eexists. split; [right; apply a2b_loop_pair; assumption|]. reflexivity.
  - inversion Hall as [|? ? Hb0 Hall1]; inversion Hall1 as [|? ? Hb1 Hall2];
      inversion Hall2 as [|? ? Hb2 Hrest]; subst.
    cbn [b2a_base64]. rewrite a2b_loop_app, a2b_loop_trio by assumption.
    destruct (IH (List.length rest) ltac:(simpl; lia) rest eq_refl Hrest
                {| quad_pos := 0; leftchar := 0; pads := 0;
                   bin_data := b2 :: b1 :: b0 :: bin_data st |} eq_refl)
      as (st' & Hrun & Hbin).
    exists st'. split; [exact Hrun|].
    rewrite Hbin. cbn [bin_data rev]. rewrite <- !app_assoc. reflexivity.
Qed.

Lemma b2a_base64_ascii (data : list Z) :
  forallb (fun c => c <? 128) (b2a_base64 data) = true.
Proof.
  remember (List.length data) as n eqn:Hn. revert data Hn.
  induction n as [n IH] using lt_wf_ind.
  assert (Ht : forall i, (table_b2a_base64 i <? 128) = true)
    by (intros i; apply Z.ltb_lt, table_b2a_ascii).
  intros [|b0 [|b1 [|b2 rest]]] Hn; cbn [b2a_base64 forallb]; try reflexivity.
  - rewrite !Ht. reflexivity.
  - rewrite !Ht. reflexivity.
  - rewrite forallb_app. unfold encode_trio. cbn [forallb]. rewrite !Ht.
    rewrite (IH (List.length rest)) by (simpl in Hn; lia || reflexivity). reflexivity.
Qed.

Lemma byte_val_range (b : Byte.byte) : 0 <= byte_val b < 256.
Proof. unfold byte_val. pose proof (Byte.to_N_bounded b). lia. Qed.

(** C7: for every byte string [b] (any octets, UTF-8 or not), building a
    [BaseBytes] from it, serializing it to base64 text and building a
    [BaseBytes] from that text gives back [b]. *)
Theorem bytes_base64_roundtrip (b : list Byte.byte) :
  let z := map byte_val b in
  (v <- BaseBytes_new (FromBytes z) ;; BaseBytes_new (FromStr (serialize v))) = Ok z.
Proof.
  intros z. cbn [rbind BaseBytes_new]. unfold serialize, standard_b64encode,
    standard_b64decode. rewrite b2a_base64_ascii.
  assert (Hall : Forall (fun x => 0 <= x < 256) z).
  { subst z. apply Forall_forall. intros x Hx. apply in_map_iff in Hx as (y & <- & _).
    apply byte_val_range. }
  destruct (a2b_loop_b2a z Hall a2b_init eq_refl) as (st' & Hrun & Hbin).
  cbn [bin_data a2b_init] in Hbin. rewrite app_nil_r in Hbin.
  unfold a2b_base64. destruct Hrun as [[Hrun Hq]|Hrun]; rewrite Hrun.
  - rewrite Hq, Hbin, rev_involutive. reflexivity.
  - rewrite Hbin, rev_involutive. reflexivity.
Qed.

End Base64Proofs.

(** ** Bounded integers and floats *)
Module NumberProofs.
Import Numbers.

(** IEEE comparisons through their [SpecFloat] specification. *)
Lemma SFcompare_swap (a b : spec_float) :
  SFcompare b a = option_map CompOpp (SFcompare a b).
Proof.
  destruct a as [s1|s1| |s1 m1 e1], b as [s2|s2| |s2 m2 e2];
    try destruct s1; try destruct s2; cbn; try reflexivity;
    rewrite (Z.compare_antisym e1 e2); destruct (Z.compare e1 e2); cbn; try reflexivity;
    pose proof (Pos.compare_cont_antisym m1 m2 Eq) as HA; cbn in HA; rewrite <- HA;
    destruct (Pos.compare_cont Eq m1 m2); reflexivity.
Qed.

Lemma SFcompare_refl (a b : spec_float) :
  SFcompare a b <> None -> SFcompare a a = Some Eq.
Proof.
  intros H. destruct a as [s1|s1| |s1 m1 e1]; try destruct s1; cbn; try reflexivity;
  try (destruct b; cbn in H; congruence);
  rewrite Z.compare_refl, Pos.compare_cont_refl; reflexivity.
Qed.

Lemma float_leb_not_ltb (a b : PrimFloat.float) :
  (a <=? b)%float = true -> (b <? a)%float = false.
Proof.
  rewrite leb_spec, ltb_spec. unfold SFleb, SFltb.
  rewrite (SFcompare_swap (Prim2SF a) (Prim2SF b)).
  intros H. destruct (SFcompare (Prim2SF a) (Prim2SF b)) as [[]|]; cbn in *; congruence.
Qed.

Lemma float_ltb_not_leb (a b : PrimFloat.float) :
  (a <? b)%float = true -> (b <=? a)%float = false.
Proof.
  rewrite leb_spec, ltb_spec. unfold SFleb, SFltb.
  rewrite (SFcompare_swap (Prim2SF a) (Prim2SF b)).
  intros H. destruct (SFcompare (Prim2SF a) (Prim2SF b)) as [[]|]; cbn in *; congruence.
Qed.

Lemma float_leb_refl (a b : PrimFloat.float) :
  (a <=? b)%float = true -> (a <=? a)%float = true /\ (b <=? b)%float = true.
Proof.
  rewrite !leb_spec. unfold SFleb. intros H.
  assert (Hn : SFcompare (Prim2SF a) (Prim2SF b) <> None)
    by (destruct (SFcompare (Prim2SF a) (Prim2SF b)); congruence).
  assert (Hn' : SFcompare (Prim2SF b) (Prim2SF a) <> None)
    by (rewrite (SFcompare_swap (Prim2SF a) (Prim2SF b));
        destruct (SFcompare (Prim2SF a) (Prim2SF b)); cbn; congruence).
  rewrite (SFcompare_refl _ _ Hn), (SFcompare_refl _ _ Hn'). split; reflexivity.
Qed.

(** The dictionary the [super()] chain assembles for bounded classes. *)
Lemma int_constraint_dict_bounds (T : int_type) (lo hi : Z) (mro : list int_mixin) :
  it_min_value T = Some lo -> it_max_value T = Some hi ->
  int_constraint_dict T mro
  = Ok {| ge := if existsb (fun m => match m with LowerBoundIntegerMixIn => true
                                                | _ => false end) mro
                then Some lo else None;
          le := if existsb (fun m => match m with UpperBoundIntegerMixIn => true
                                                | _ => false end) mro
                then Some hi else None |}.
Proof.
  intros Hlo Hhi. induction mro as [|m mro IH]; [reflexivity|].
  cbn [int_constraint_dict]. rewrite IH. cbn [rbind existsb].
  destruct m; cbn; unfold lower_bound_integer_contribute, upper_bound_integer_contribute;
    rewrite ?Hlo, ?Hhi; reflexivity.
Qed.

Lemma float_constraint_dict_bounds (T : float_type) (lo hi : PrimFloat.float)
  (mro : list float_mixin) :
  ft_min_value T = Some lo -> ft_max_value T = Some hi ->
  float_constraint_dict T mro
  = Ok {| fge := if existsb (fun m => match m with LowerBoundFloatMixIn => true
                                                 | _ => false end) mro
                 then Some lo else None;
          fle := if existsb (fun m => match m with UpperBoundFloatMixIn => true
                                                 | _ => false end) mro
                 then Some hi else None |}.
Proof.
  intros Hlo Hhi. induction mro as [|m mro IH]; [reflexivity|].
  cbn [float_constraint_dict]. rewrite IH. cbn [rbind existsb].
  destruct m; cbn; unfold lower_bound_float_contribute, upper_bound_float_contribute;
    rewrite ?Hlo, ?Hhi; reflexivity.
Qed.

Lemma existsb_in_mixin {A} (f : A -> bool) (m : A) (l : list A) :
  In m l -> f m = true -> existsb f l = true.
Proof. intros Hin Hf. apply existsb_exists. exists m. split; assumption. Qed.

(** [validate_int] returns the integer it was given. *)
Lemma validate_int_value (T : int_type) (x v : Z) : validate_int T x = Ok v -> v = x.
Proof.
  unfold validate_int. destruct (int_constraint_dict T (it_mro T)) as [d|e]; cbn; [|congruence].
  destruct (le d) as [hi|]; [destruct (hi <? x)|]; cbn; try congruence;
  destruct (ge d) as [lo|]; try destruct (x <? lo); cbn; congruence.
Qed.

(** C4: for an integer class and a float class whose MRO has both the
    lower- and the upper-bound mixin, with bounds [lo] and [hi]: an integer
    is accepted exactly when [lo <= x <= hi] and is otherwise rejected; a
    float between the bounds (IEEE [<=]), or equal to one of two ordered
    bounds, is accepted, one below [lo] or above [hi] rejected; a value
    serializes as the bare number. *)
Theorem bounded_numbers_inclusive :
  (forall (T : int_type) (lo hi x : Z),
     In LowerBoundIntegerMixIn (it_mro T) -> In UpperBoundIntegerMixIn (it_mro T) ->
     it_min_value T = Some lo -> it_max_value T = Some hi ->
     (validate_int T x = Ok x <-> lo <= x <= hi)
     /\ (x < lo \/ hi < x -> exists e, validate_int T x = Err e)
     /\ serialize_int x = WInt x)
  /\ (forall (T : float_type) (lo hi x : PrimFloat.float),
     In LowerBoundFloatMixIn (ft_mro T) -> In UpperBoundFloatMixIn (ft_mro T) ->
     ft_min_value T = Some lo -> ft_max_value T = Some hi ->
     ((lo <=? x)%float = true -> (x <=? hi)%float = true -> validate_float T x = Ok x)
     /\ ((lo <=? hi)%float = true ->
         validate_float T lo = Ok lo /\ validate_float T hi = Ok hi)
     /\ ((x <? lo)%float = true \/ (hi <? x)%float = true ->
         exists e, validate_float T x = Err e)
     /\ serialize_float x = WFloat x).
Proof.
  split.
  - intros T lo hi x Hl Hu Hlo Hhi.
    assert (Hd : int_constraint_dict T (it_mro T) = Ok {| ge := Some lo; le := Some hi |}).
    { rewrite (int_constraint_dict_bounds T lo hi _ Hlo Hhi).
      rewrite (existsb_in_mixin _ _ _ Hl eq_refl), (existsb_in_mixin _ _ _ Hu eq_refl).
      reflexivity. }
    unfold validate_int. rewrite Hd. cbn [rbind le ge].
    split; [|split; [|reflexivity]].
    + destruct (Z.ltb_spec hi x), (Z.ltb_spec x lo); cbn; split; intros Hc;
        try discriminate; try lia; reflexivity.
    + intros Hout. destruct (Z.ltb_spec hi x); cbn; [eexists; reflexivity|].
      destruct (Z.ltb_spec x lo); cbn; [eexists; reflexivity|]. lia.
  - intros T lo hi x Hl Hu Hlo Hhi.
    assert (Hd : float_constraint_dict T (ft_mro T)
                 = Ok {| fge := Some lo; fle := Some hi |}).
    { rewrite (float_constraint_dict_bounds T lo hi _ Hlo Hhi).
      rewrite (existsb_in_mixin _ _ _ Hl eq_refl), (existsb_in_mixin _ _ _ Hu eq_refl).
      reflexivity. }
    assert (Hin : forall y, (lo <=? y)%float = true -> (y <=? hi)%float = true ->
                            validate_float T y = Ok y).
    { intros y H1 H2. unfold validate_float. rewrite Hd. cbn [rbind fle fge].
      rewrite H2, H1. reflexivity. }
    split; [exact (Hin x)|]. split; [|split; [|reflexivity]].
    + intros H. destruct (float_leb_refl lo hi H) as [Hll Hhh].
      split; apply Hin; assumption.
    + intros Hout. unfold validate_float. rewrite Hd. cbn [rbind fle fge].
      destruct (PrimFloat.leb x hi) eqn:Exh; cbn; [|eexists; reflexivity].
      destruct Hout as [Hout|Hout].
      * rewrite (float_ltb_not_leb _ _ Hout). eexists; reflexivity.
      * rewrite (float_ltb_not_leb _ _ Hout) in Exh. discriminate Exh.
Qed.

Lemma bounded_numbers_witness :
  validate_int Fixtures.UpperAndLowerBoundInteger 3 = Ok 3
  /\ validate_float Fixtures.UpperAndLowerBoundFloat 5%float = Ok 5%float.
Proof.
  split.
  - apply (proj2 (proj1 (proj1 bounded_numbers_inclusive
             Fixtures.UpperAndLowerBoundInteger 3 5 3
             ltac:(cbn; tauto) ltac:(cbn; tauto) eq_refl eq_refl))).
    lia.
  - apply (proj2 (proj1 (proj2 (proj2 bounded_numbers_inclusive
             Fixtures.UpperAndLowerBoundFloat 3%float 5%float 5%float
             ltac:(cbn; tauto) ltac:(cbn; tauto) eq_refl eq_refl)) eq_refl)).
Defined.

End NumberProofs.

(** ** The ULID text form *)
Module IdentProofs.
Import Ident.

Lemma land_31 (x : Z) : Z.land x 31 = x mod 32.
Proof. exact (Base64Proofs.land_low x 5 ltac:(lia)). Qed.

Lemma digits_be_length (k : nat) (n : Z) : List.length (digits_be k n) = k.
Proof.
  revert n. induction k as [|k IH]; intros n; [reflexivity|].
  cbn [digits_be]. rewrite length_app, IH. cbn. lia.
Qed.

Lemma digits_be_range (k : nat) (n : Z) : Forall (fun d => 0 <= d < 32) (digits_be k n).
Proof.
  revert n. induction k as [|k IH]; intros n; [constructor|].
  cbn [digits_be]. apply Forall_app. split; [apply IH|].
  constructor; [|constructor].
  rewrite land_31. apply Z.mod_pos_bound. reflexivity.
Qed.

Lemma decode_encode_check :
  forallb (fun d => decode_digit (encode_digit d) =? d) (map Z.of_nat (seq 0 32)) = true.
Proof. reflexivity. Qed.

Lemma decode_encode_digit (d : Z) : 0 <= d < 32 -> decode_digit (encode_digit d) = d.
Proof.
  intros Hd.
  assert (Hin : In d (map Z.of_nat (seq 0 32))).
  { apply in_map_iff. exists (Z.to_nat d). split; [lia|]. apply in_seq. lia. }
  apply Z.eqb_eq. exact (proj1 (forallb_forall _ _) decode_encode_check d Hin).
Qed.

(** Reading the digits back most significant first rebuilds [n] modulo
    [32^k]. *)
Lemma horner_digits_be (k : nat) (n : Z) :
  fold_left (fun acc d => Z.lor (Z.shiftl acc 5) d) (digits_be k n) 0
  = n mod 2 ^ (5 * Z.of_nat k).
Proof.
  revert n. induction k as [|k IH]; intros n.
  - cbn. symmetry. apply Z.mod_1_r.
  - cbn [digits_be]. rewrite fold_left_app, IH. cbn [fold_left].
    rewrite land_31, Base64Proofs.shiftr_div by lia.
    rewrite Base64Proofs.join_bits by (try lia; apply Z.mod_pos_bound; reflexivity).
    replace (5 * Z.of_nat (S k)) with (5 + 5 * Z.of_nat k) by lia.
    rewrite Z.pow_add_r by lia.
    rewrite (Z.rem_mul_r n (2 ^ 5) (2 ^ (5 * Z.of_nat k)))
      by (try lia; apply Z.pow_pos_nonneg; lia).
    change (2 ^ 5) with 32. ring.
Qed.

Lemma hd_app_cons {A} (d : A) (l m : list A) : l <> [] -> hd d (l ++ m) = hd d l.
Proof. destruct l; [congruence|reflexivity]. Qed.

(** The first of [S k] digits is bits [5k] to [5k+4] of [n]. *)
Lemma digits_be_hd (k : nat) (n : Z) :
  hd 0 (digits_be (S k) n) = Z.land (Z.shiftr n (5 * Z.of_nat k)) 31.
Proof.
  revert n. induction k as [|k IH]; intros n.
  - cbn [digits_be app hd]. change (5 * Z.of_nat 0) with 0. rewrite Z.shiftr_0_r.
    reflexivity.
  - change (digits_be (S (S k)) n) with (digits_be (S k) (Z.shiftr n 5) ++ [Z.land n 31]).
    rewrite hd_app_cons.
    + rewrite IH, Z.shiftr_shiftr by lia. do 2 f_equal. lia.
    + intros He. pose proof (digits_be_length (S k) (Z.shiftr n 5)) as Hl.
      rewrite He in Hl. discriminate Hl.
Qed.

(** The first digit of a 128-bit value is at most [7]. *)
Lemma digits_be_hd_small (n : Z) : 0 <= n < 2 ^ 128 -> hd 0 (digits_be 26 n) <= 7.
Proof.
  intros Hn. rewrite digits_be_hd, land_31, Base64Proofs.shiftr_div by lia.
  change (5 * Z.of_nat 25) with 125.
  assert (Hq : 0 <= n / 2 ^ 125 < 8).
  { split; [apply Z.div_pos; lia|]. apply Z.div_lt_upper_bound; [lia|].
    replace (2 ^ 125 * 8) with (2 ^ 128) by reflexivity. lia. }
  rewrite Z.mod_small by lia. lia.
Qed.

(** The canonical text of any 128-bit value is read back as that value. *)
Lemma Id_of_str_serialize (n : Z) : 0 <= n < 2 ^ 128 -> Id_of_str (Id_serialize n) = Ok n.
Proof.
  intros Hn. unfold Id_of_str, Id_serialize, encode_ulid.
  rewrite length_map, digits_be_length. cbn [Nat.eqb negb].
  unfold decode_ulid. rewrite map_map.
  rewrite (map_ext_in _ (fun d => d)) by
    (intros d Hd; apply decode_encode_digit;
     exact (proj1 (Forall_forall _ _) (digits_be_range 26 n) d Hd)).
  rewrite map_id.
  replace (existsb (fun d => 31 <? d) (digits_be 26 n)) with false.
  2:{ symmetry. apply not_true_iff_false. intros Hx. apply existsb_exists in Hx as (d & Hd & Hlt).
      pose proof (proj1 (Forall_forall _ _) (digits_be_range 26 n) d Hd).
      apply Z.ltb_lt in Hlt. cbv beta in *. lia. }
  replace (7 <? hd 0 (digits_be 26 n)) with false
    by (symmetry; apply Z.ltb_ge, digits_be_hd_small, Hn).
  rewrite horner_digits_be, Base64Proofs.land_low by lia.
  rewrite Z.mod_mod_divide.
  - f_equal. apply Z.mod_small. exact Hn.
  - exists (2 ^ 2). reflexivity.
Qed.

End IdentProofs.

(** ** [serialize] after construction *)
Module RoundtripProofs.
Import Strings.

(** A lone tab satisfies the (empty) constraints of a class with the
    normalization mixin, but the class stores and serializes a space. *)
Lemma normalized_roundtrip_counterexample :
  extra_constraint_dict char_class Fixtures.NormalizedOnly
    (st_mro (@Fixtures.NormalizedOnly char_class)) = Ok (no_constraints char_class)
  /\ str_check char_class char_class_search (no_constraints char_class) [9] = Ok [9]
  /\ (v <- validate char_class char_class_sub char_class_search (fun s => s) (fun s => s)
             Utils.nfkc_fragment Fixtures.NormalizedOnly [9] ;;
      Ok (Strings.serialize v)) = Ok [32].
Proof. repeat split; reflexivity. Qed.

(** C6 (amended): [serialize(construct(x)) == x] for a string its class's
    transform chain leaves unchanged and that passes the class's checks
    (strip included), for an integer the class accepts, for the canonical
    26-character text of an identifier, and for an integer timestamp. *)
Theorem serialize_construct_roundtrip :
  (forall (regex : Type) (re_sub : regex -> str -> str -> str)
          (pattern_is_match : regex -> str -> bool) (to_snake to_camel nfkc : str -> str)
          (T : str_type regex) (x : str) (d : constraints regex),
     extra_constraint_dict regex T (st_mro T) = Ok d ->
     proc_str regex re_sub to_snake to_camel nfkc T (st_mro T) x = Ok x ->
     str_check regex pattern_is_match d x = Ok x ->
     (v <- validate regex re_sub pattern_is_match to_snake to_camel nfkc T x ;;
      Ok (Strings.serialize v)) = Ok x)
  /\ (forall (T : Numbers.int_type) (x v : Z),
        Numbers.validate_int T x = Ok v -> Numbers.serialize_int v = Numbers.WInt x)
  /\ (forall n : Z, 0 <= n < 2 ^ 128 ->
        (v <- Ident.Id_of_str (Ident.Id_serialize n) ;; Ok (Ident.Id_serialize v))
        = Ok (Ident.Id_serialize n))
  /\ (forall t : Z,
        Ident.Timestamp_serialize (Ident.Timestamp_validate_int t) = Numbers.WInt t).
Proof.
  split; [|split; [|split]].
  - intros regex re_sub pm ts tc nfkc T x d Hd Hp Hc.
    unfold validate. rewrite Hd. cbn [rbind]. rewrite Hp. cbn [rbind].
    rewrite Hc. reflexivity.
  - intros T x v Hv. apply NumberProofs.validate_int_value in Hv. subst v. reflexivity.
  - intros n Hn. rewrite (IdentProofs.Id_of_str_serialize n Hn). reflexivity.
  - intros t. reflexivity.
Qed.

Lemma serialize_construct_roundtrip_witness :
  (v <- validate char_class char_class_sub char_class_search (fun s => s) (fun s => s)
          Utils.nfkc_fragment Fixtures.NormalizedOnly (s2z "abc") ;;
   Ok (Strings.serialize v)) = Ok (s2z "abc")
  /\ (v <- Ident.Id_of_str (Ident.Id_serialize 1) ;; Ok (Ident.Id_serialize v))
     = Ok (Ident.Id_serialize 1).
Proof.
  split.
  - apply (proj1 serialize_construct_roundtrip char_class char_class_sub char_class_search
             (fun s => s) (fun s => s) Utils.nfkc_fragment Fixtures.NormalizedOnly
             (s2z "abc") (no_constraints char_class)); reflexivity.
  - apply (proj1 (proj2 (proj2 serialize_construct_roundtrip)) 1). lia.
Defined.

End RoundtripProofs.

(** ** [BaseUpdateTimeAwareModel.__setattr__] *)
Module UpdateTimeProofs.
Import UpdateTime.
Local Open Scope string_scope.

Lemma inst_get_set (k : string) (v : value) (d : instance) :
  inst_get k (inst_set k v d) = Some v.
Proof.
  induction d as [|[k' v'] d IH]; cbn [inst_set inst_get].
  - rewrite String.eqb_refl. reflexivity.
  - destruct (String.eqb k k') eqn:E; cbn [inst_get].
    + rewrite String.eqb_refl. reflexivity.
    + rewrite E. exact IH.
Qed.

(** pydantic's assignment either raises and leaves the instance as it
    was, or stores the validated value. *)
Lemma pydantic_setattr_cases (parse_datetime : string -> option Z)
  (own : list (string * field_info)) (name : string) (v : value) (inst : instance) :
  (exists e, pydantic_setattr parse_datetime own name v inst = (Err e, inst))
  \/ (exists v', pydantic_setattr parse_datetime own name v inst = (Ok tt, inst_set name v' inst)).
Proof.
  unfold pydantic_setattr.
  destruct (is_private_name name); [right; eexists; reflexivity|].
  destruct (field_lookup name (class_fields parse_datetime own)) as [f|].
  - destruct (fi_frozen f); [left; eexists; reflexivity|].
    destruct (fi_validate f v) as [v'|e]; [right|left]; eexists; reflexivity.
  - left. eexists. reflexivity.
Qed.

(** Stamping [updated_at] with a timestamp always succeeds. *)
Lemma pydantic_setattr_updated_at (parse_datetime : string -> option Z)
  (own : list (string * field_info)) (now : Z) (inst : instance) :
  pydantic_setattr parse_datetime own "updated_at" (VTimestamp now) inst
  = (Ok tt, inst_set "updated_at" (VTimestamp now) inst).
Proof. reflexivity. Qed.

(** C3: assigning [updated_at] itself is pydantic's assignment alone; any
    other assignment either raises, with the error propagated and the
    instance (its [updated_at] included) left as it was, or succeeds, and
    then [updated_at] is set to [now]: the stamp happens exactly when the
    delegated assignment succeeds. *)
Theorem update_time_aware_setattr_spec (parse_datetime : string -> option Z)
  (own : list (string * field_info)) (now : Z) (name : string) (v : value)
  (inst : instance) :
  (name = "updated_at" ->
   update_time_aware_setattr parse_datetime own now name v inst
   = pydantic_setattr parse_datetime own name v inst)
  /\ (name <> "updated_at" ->
      (exists e,
         pydantic_setattr parse_datetime own name v inst = (Err e, inst)
         /\ update_time_aware_setattr parse_datetime own now name v inst = (Err e, inst))
      \/ (exists inst',
         pydantic_setattr parse_datetime own name v inst = (Ok tt, inst')
         /\ update_time_aware_setattr parse_datetime own now name v inst
            = (Ok tt, inst_set "updated_at" (VTimestamp now) inst')
         /\ inst_get "updated_at" (inst_set "updated_at" (VTimestamp now) inst')
            = Some (VTimestamp now))).
Proof.
  split.
  - intros ->. reflexivity.
  - intros Hn. unfold update_time_aware_setattr.
    rewrite (proj2 (String.eqb_neq name "updated_at") Hn). unfold mbind.
    destruct (pydantic_setattr_cases parse_datetime own name v inst) as [[e He]|[v' Hv]].
    + left. exists e. rewrite He. split; reflexivity.
    + right. exists (inst_set name v' inst). rewrite Hv.
      rewrite pydantic_setattr_updated_at.
      split; [reflexivity|]. split; [reflexivity|]. apply inst_get_set.
Qed.

Lemma update_time_aware_setattr_witness :
  let own := [("name", {| fi_frozen := false; fi_validate := fun v => Ok v |})] in
  "name" <> "updated_at"
  /\ ((exists e,
         pydantic_setattr (fun _ => None) own "name" (VStr "x") [] = (Err e, [])
         /\ update_time_aware_setattr (fun _ => None) own 7 "name" (VStr "x") []
            = (Err e, []))
      \/ (exists inst',
         pydantic_setattr (fun _ => None) own "name" (VStr "x") [] = (Ok tt, inst')
         /\ update_time_aware_setattr (fun _ => None) own 7 "name" (VStr "x") []
            = (Ok tt, inst_set "updated_at" (VTimestamp 7) inst')
         /\ inst_get "updated_at" (inst_set "updated_at" (VTimestamp 7) inst')
            = Some (VTimestamp 7))).
Proof.
  intros own. split; [discriminate|].
  apply (proj2 (update_time_aware_setattr_spec (fun _ => None) own 7 "name" (VStr "x") [])).
  discriminate.
Defined.

End UpdateTimeProofs.

(** ** [json_schema_to_model] *)
Module SchemaProofs.
Import Schema.
Local Open Scope string_scope.

Section Loop.
Variable to_snake : string -> string.
Variable create_model : string -> dict pytype -> result exn pytype.

Lemma dict_pop_length {A} (k : string) (d : dict A) :
  (List.length (dict_pop k d) <= List.length d)%nat.
Proof.
  induction d as [|[k' v] d IH]; cbn [dict_pop]; [lia|].
  destruct (String.eqb k k'); cbn; lia.
Qed.

(** A pass only removes entries. *)
Lemma resolve_pass_length (ks : list string) (st : loop_state) :
  (List.length (unresolved (snd (resolve_pass to_snake create_model ks st)))
   <= List.length (unresolved st))%nat.
Proof.
  revert st. induction ks as [|k ks IH]; intros st; cbn [resolve_pass]; [cbn; lia|].
  destruct (entry <- dict_getitem k (unresolved st) ;;
            property_to_model to_snake create_model entry (resolved st)) as [m|[| |]].
  - etransitivity; [apply IH|]. apply dict_pop_length.
  - apply IH.
  - cbn. lia.
  - cbn. lia.
Qed.

(** With more fuel than unresolved entries the loop never runs out: every
    pass either raises or shrinks the dict. *)
Lemma resolve_loop_enough_fuel (fuel : nat) (st : loop_state) :
  (List.length (unresolved st) < fuel)%nat ->
  fst (resolve_loop to_snake create_model fuel st) <> LoopOutOfFuel.
Proof.
  revert st. induction fuel as [|fuel IH]; intros st Hf; [lia|].
  cbn [resolve_loop].
  destruct (unresolved st) as [|e rest] eqn:Hu; [discriminate|].
  pose proof (resolve_pass_length (map fst (e :: rest)) st) as Hl.
  destruct (resolve_pass to_snake create_model (map fst (e :: rest)) st)
    as [[err|] st'] eqn:Hp; [discriminate|].
  cbn [snd] in Hl. rewrite Hu in Hl.
  destruct (Nat.eqb_spec (List.length (e :: rest)) (List.length (unresolved st')));
    [discriminate|].
  apply IH. lia.
Qed.

Lemma finish_not_diverged (lo : loop_outcome) (st : loop_state) (doc : dict json) :
  lo <> LoopOutOfFuel -> finish to_snake create_model lo st doc <> Diverged.
Proof.
  intros H Hd. unfold finish in Hd. destruct lo; [|discriminate|congruence].
  destruct (property_to_model to_snake create_model (JObj doc) (resolved st)); discriminate.
Qed.

End Loop.

Import Fixtures.

(** C2: [json_schema_to_model] never loops forever, whatever the document;
    a pass of the loop that resolves nothing (the dict keeps its size)
    raises [ValueError("Cannot resolve all references")] at once; a lone
    self-referencing definition and a lone reference to a missing
    definition raise it (no model is returned), and a reference to a
    definition declared later resolves. *)
Theorem json_schema_to_model_terminates :
  (forall (to_snake : string -> string)
          (create_model : string -> dict pytype -> result exn pytype) (doc : dict json),
     fst (json_schema_to_model to_snake create_model doc) <> Diverged)
  /\ (forall (to_snake : string -> string)
             (create_model : string -> dict pytype -> result exn pytype)
             (fuel : nat) (st st' : loop_state),
        unresolved st <> [] ->
        resolve_pass to_snake create_model (map fst (unresolved st)) st = (None, st') ->
        List.length (unresolved st') = List.length (unresolved st) ->
        resolve_loop to_snake create_model (S fuel) st
        = (LoopRaised (ValueError "Cannot resolve all references"), st'))
  /\ fst (json_schema_to_model (fun s => s) plain_create_model doc_self_ref)
     = Raised (ValueError "Cannot resolve all references")
  /\ fst (json_schema_to_model (fun s => s) plain_create_model doc_missing_ref)
     = Raised (ValueError "Cannot resolve all references")
  /\ (exists m, fst (json_schema_to_model (fun s => s) plain_create_model doc_direct_ref)
                = Returned m).
Proof.
  split; [|split; [|split; [reflexivity|split; [reflexivity|eexists; reflexivity]]]].
  - intros ts cm doc. unfold json_schema_to_model, json_schema_to_model_run.
    destruct (dict_get "properties" doc) as [props|]; [|discriminate].
    destruct (dict_get "$defs" doc) as [[]|].
    1-5: (destruct (truthy _); [discriminate|]);
         cbn [fst]; apply finish_not_diverged; discriminate.
    + destruct (resolve_loop ts cm (S (List.length kv))
                  {| unresolved := kv; resolved := [] |}) as [lo st] eqn:E.
      cbn [fst]. apply finish_not_diverged.
      pose proof (resolve_loop_enough_fuel ts cm (S (List.length kv))
                    {| unresolved := kv; resolved := [] |} ltac:(cbn; lia)) as H.
      rewrite E in H. exact H.
    + cbn [fst]. apply finish_not_diverged. discriminate.
  - intros ts cm fuel st st' Hne Hp Hlen. cbn [resolve_loop].
    destruct (unresolved st) as [|e rest] eqn:Hu; [congruence|].
    rewrite Hp, Hlen, Nat.eqb_refl. reflexivity.
Qed.

Lemma json_schema_to_model_terminates_witness :
  let defA := JObj [("properties", JObj [("a", JObj [("$ref", JStr "#/$defs/A")])])] in
  resolve_loop (fun s => s) plain_create_model 1 {| unresolved := [("A", defA)]; resolved := [] |}
  = (LoopRaised (ValueError "Cannot resolve all references"),
     {| unresolved := [("A", defA)]; resolved := [] |}).
Proof.
  intros defA.
  apply (proj1 (proj2 json_schema_to_model_terminates) (fun s => s) plain_create_model 0%nat
           {| unresolved := [("A", defA)]; resolved := [] |}
           {| unresolved := [("A", defA)]; resolved := [] |}).
  - discriminate.
  - reflexivity.
  - reflexivity.
Defined.

(** An array whose [items] carry no [type] and a [$ref] missing from
    [defs] cannot be converted. *)
Lemma array_items_unresolved_ref (kv ikv : dict json) (r : string) (defs : dict pytype) :
  dict_get "type" kv = Some (JStr "array") ->
  dict_get "items" kv = Some (JObj ikv) ->
  dict_get "type" ikv = None ->
  dict_get "$ref" ikv = Some (JStr r) ->
  dict_get r defs = None ->
  json_schema_type_to_python_type (JObj kv) defs = Err cannot_convert.
Proof.
  intros Ht Hi Hit Hr Hd.
  unfold json_schema_type_to_python_type, py_getitem, dict_getitem, key_contains, key_getitem.
  cbn [py_contains]. rewrite Ht. cbn [rbind is_jstr].
  change (dict_get "array" primitive_map) with (@None pytype).
  change (String.eqb "array" "array") with true. cbv iota.
  rewrite Hi. cbn [rbind py_contains]. rewrite Hit. cbn [rbind].
  unfold dict_getitem. rewrite Hr. cbn [rbind]. rewrite Hd. reflexivity.
Qed.

(** The field dictionary stops at the first property that fails to
    convert, when the ones before it convert. *)
Lemma field_definitions_first_err (to_snake : string -> string)
  (pre post : dict json) (p : string) (v : json) (defs acc : dict pytype) (e : exn) :
  (forall q w, In (q, w) pre -> exists t, json_schema_type_to_python_type w defs = Ok t) ->
  json_schema_type_to_python_type v defs = Err e ->
  field_definitions to_snake ((pre ++ (p, v) :: post)%list) defs acc = Err e.
Proof.
  revert acc. induction pre as [|[q w] pre IH]; intros acc Hpre Hv.
  - cbn [app field_definitions]. rewrite Hv. reflexivity.
  - cbn [app field_definitions].
    destruct (Hpre q w (or_introl eq_refl)) as [t Ht]. rewrite Ht. cbn [rbind].
    apply IH; [|exact Hv]. intros q' w' Hin. exact (Hpre q' w' (or_intror Hin)).
Qed.

(** A model whose field dictionary raises raises the same error. *)
Lemma property_to_model_fields_err (to_snake : string -> string)
  (create_model : string -> dict pytype -> result exn pytype)
  (skv props : dict json) (defs : dict pytype) (e : exn) :
  dict_get "properties" skv = Some (JObj props) ->
  field_definitions to_snake props defs [] = Err e ->
  property_to_model to_snake create_model (JObj skv) defs = Err e.
Proof.
  intros Hp Hf. unfold property_to_model. cbn [py_contains py_getitem].
  destruct (dict_get "title" skv) eqn:Ht; cbn [rbind]; unfold dict_getitem;
    rewrite ?Ht, Hp; cbn [rbind json_items]; rewrite Hf; reflexivity.
Qed.

(** C9: in a pass, an entry whose model raises anything but [KeyError]
    stops the pass with that error, which the loop raises; a [KeyError]
    only defers the entry. So an array whose [items] refer to a definition
    declared later raises [ValueError("Cannot convert to Python type")] and
    the reconstruction aborts, though the same definitions in the other
    order, or a direct [$ref] declared later, resolve. In general: an
    [array] property whose [items] have no [type] and a [$ref] not yet in
    [defs] raises that error; so does a model with such a property when
    the properties before it convert; and a document whose first [$defs]
    entry is such a model raises it from [json_schema_to_model]. *)
Theorem only_key_error_defers :
  (forall (to_snake : string -> string)
          (create_model : string -> dict pytype -> result exn pytype)
          (k : string) (ks : list string) (st : loop_state) (entry : json) (e : exn),
     dict_getitem k (unresolved st) = Ok entry ->
     property_to_model to_snake create_model entry (resolved st) = Err e ->
     e <> KeyError ->
     resolve_pass to_snake create_model (k :: ks) st = (Some e, st))
  /\ (forall (to_snake : string -> string)
             (create_model : string -> dict pytype -> result exn pytype)
             (k : string) (ks : list string) (st : loop_state),
        (entry <- dict_getitem k (unresolved st) ;;
         property_to_model to_snake create_model entry (resolved st)) = Err KeyError ->
        resolve_pass to_snake create_model (k :: ks) st
        = resolve_pass to_snake create_model ks st)
  /\ (forall (to_snake : string -> string)
             (create_model : string -> dict pytype -> result exn pytype)
             (fuel : nat) (st st' : loop_state) (e : exn),
        unresolved st <> [] ->
        resolve_pass to_snake create_model (map fst (unresolved st)) st = (Some e, st') ->
        resolve_loop to_snake create_model (S fuel) st = (LoopRaised e, st'))
  /\ property_to_model (fun s => s) plain_create_model def_A_array [] = Err cannot_convert
  /\ fst (json_schema_to_model (fun s => s) plain_create_model doc_array_ref)
     = Raised cannot_convert
  /\ (exists m, fst (json_schema_to_model (fun s => s) plain_create_model
                       doc_array_ref_in_order) = Returned m)
  /\ (exists m, fst (json_schema_to_model (fun s => s) plain_create_model doc_direct_ref)
                = Returned m)
  /\ (forall (kv ikv : dict json) (r : string) (defs : dict pytype),
        dict_get "type" kv = Some (JStr "array") ->
        dict_get "items" kv = Some (JObj ikv) ->
        dict_get "type" ikv = None ->
        dict_get "$ref" ikv = Some (JStr r) ->
        dict_get r defs = None ->
        json_schema_type_to_python_type (JObj kv) defs = Err cannot_convert)
  /\ (forall (to_snake : string -> string)
             (create_model : string -> dict pytype -> result exn pytype)
             (k : string) (rest skv pre post kv ikv : dict json) (p r : string)
             (doc : dict json) (props : json),
        dict_get "properties" doc = Some props ->
        dict_get "$defs" doc = Some (JObj ((k, JObj skv) :: rest)) ->
        dict_get "properties" skv = Some (JObj ((pre ++ (p, JObj kv) :: post)%list)) ->
        (forall q w, In (q, w) pre ->
                     exists t, json_schema_type_to_python_type w [] = Ok t) ->
        dict_get "type" kv = Some (JStr "array") ->
        dict_get "items" kv = Some (JObj ikv) ->
        dict_get "type" ikv = None ->
        dict_get "$ref" ikv = Some (JStr r) ->
        fst (json_schema_to_model to_snake create_model doc) = Raised cannot_convert).
Proof.
  split; [|split; [|split; [|split; [reflexivity|split; [reflexivity|
    split; [eexists; reflexivity|split; [eexists; reflexivity|split]]]]]]].
  4:{ exact array_items_unresolved_ref. }
  4:{ intros ts cm k rest skv pre post kv ikv p r doc props Hp Hd Hs Hpre Ht Hi Hit Hr.
      assert (Hm : property_to_model ts cm (JObj skv) [] = Err cannot_convert).
      { apply (property_to_model_fields_err ts cm skv _ [] cannot_convert Hs).
        apply field_definitions_first_err; [exact Hpre|].
        apply (array_items_unresolved_ref kv ikv r []); assumption || reflexivity. }
      unfold json_schema_to_model, json_schema_to_model_run. rewrite Hp, Hd.
      cbn [resolve_loop unresolved map fst resolve_pass].
      unfold dict_getitem. cbn [dict_get]. rewrite String.eqb_refl. cbn [rbind resolved].
      rewrite Hm. reflexivity. }
  - intros ts cm k ks st entry e Hg Hm He. cbn [resolve_pass]. rewrite Hg. cbn [rbind].
    rewrite Hm. destruct e; [congruence|reflexivity|reflexivity].
  - intros ts cm k ks st Hk. cbn [resolve_pass]. rewrite Hk. reflexivity.
  - intros ts cm fuel st st' e Hne Hp. cbn [resolve_loop].
    destruct (unresolved st) as [|x rest] eqn:Hu; [congruence|].
    rewrite Hp. reflexivity.
Qed.

Lemma only_key_error_defers_witness :
  resolve_pass (fun s => s) plain_create_model ["A"; "B"]
    {| unresolved := [("A", def_A_array); ("B", def_B)]; resolved := [] |}
  = (Some cannot_convert,
     {| unresolved := [("A", def_A_array); ("B", def_B)]; resolved := [] |})
  /\ json_schema_type_to_python_type
       (JObj [("type", JStr "array"); ("items", JObj [("$ref", JStr "#/$defs/B")])]) []
     = Err cannot_convert
  /\ fst (json_schema_to_model (fun s => s) plain_create_model
          [("properties", top_properties);
           ("$defs", JObj [("A", JObj [("properties",
                                  JObj [("n", JObj [("type", JStr "integer")]);
                                        ("xs", JObj [("type", JStr "array");
                                                     ("items", JObj [("$ref", JStr "#/$defs/B")])])])]);
                           ("B", def_B)])])
     = Raised cannot_convert.
Proof.
  split; [|split].
  - apply (proj1 only_key_error_defers (fun s => s) plain_create_model "A" ["B"]
             {| unresolved := [("A", def_A_array); ("B", def_B)]; resolved := [] |}
             def_A_array cannot_convert).
    + reflexivity.
    + reflexivity.
    + discriminate.
  - apply (proj1 (proj2 (proj2 (proj2 (proj2 (proj2 (proj2 (proj2
             only_key_error_defers))))))))
      with (ikv := [("$ref", JStr "#/$defs/B")]) (r := "#/$defs/B");
      reflexivity.
  - apply (proj2 (proj2 (proj2 (proj2 (proj2 (proj2 (proj2 (proj2
             only_key_error_defers))))))))
      with (k := "A") (rest := [("B", def_B)])
           (skv := [("properties",
                     JObj [("n", JObj [("type", JStr "integer")]);
                           ("xs", JObj [("type", JStr "array");
                                        ("items", JObj [("$ref", JStr "#/$defs/B")])])])])
           (pre := [("n", JObj [("type", JStr "integer")])]) (post := [])
           (kv := [("type", JStr "array"); ("items", JObj [("$ref", JStr "#/$defs/B")])])
           (ikv := [("$ref", JStr "#/$defs/B")]) (p := "xs") (r := "#/$defs/B")
           (props := top_properties);
      try reflexivity.
    intros q w [Heq|[]]. injection Heq as <- <-. eexists. reflexivity.
Defined.

Lemma append_prefix_inj (p a b : string) : p ++ a = p ++ b -> a = b.
Proof.
  induction p as [|c p IH]; cbn; intros H; [exact H|].
  injection H as H. apply IH. exact H.
Qed.

Lemma ref_key_eqb (a b : string) : String.eqb (ref_key a) (ref_key b) = String.eqb a b.
Proof.
  destruct (String.eqb_spec a b) as [->|Hne]; [apply String.eqb_refl|].
  apply String.eqb_neq. intros H. apply Hne. exact (append_prefix_inj _ _ _ H).
Qed.

Lemma dict_get_set {A} (k k' : string) (v : A) (d : dict A) :
  dict_get k (dict_set k' v d) = if String.eqb k k' then Some v else dict_get k d.
Proof.
  induction d as [|[k0 v0] d IH]; [reflexivity|].
  cbn [dict_set]. destruct (String.eqb k' k0) eqn:E.
  - apply String.eqb_eq in E. subst k0. cbn [dict_get].
    destruct (String.eqb k k'); reflexivity.
  - cbn [dict_get]. rewrite IH.
    destruct (String.eqb_spec k k0) as [->|Hne]; [|reflexivity].
    rewrite String.eqb_sym, E. reflexivity.
Qed.

Lemma filter_keys_absent {A} (k : string) (l : dict A) :
  ~ In k (map fst l) -> filter (fun kv => negb (String.eqb (fst kv) k)) l = l.
Proof.
  induction l as [|[k0 v0] l IH]; intros Hn; [reflexivity|].
  cbn [filter fst]. cbn [map fst In] in Hn.
  rewrite (proj2 (String.eqb_neq k0 k)) by tauto. cbn [negb]. f_equal. apply IH. tauto.
Qed.

(** On a dict without repeated keys, [pop] drops the entry of the key. *)
Lemma dict_pop_nodup {A} (k : string) (l : dict A) :
  NoDup (map fst l) -> dict_pop k l = filter (fun kv => negb (String.eqb (fst kv) k)) l.
Proof.
  induction l as [|[k0 v0] l IH]; intros Hnd; [reflexivity|].
  inversion Hnd as [|? ? Hnin Hnd']; subst.
  cbn [dict_pop filter fst]. destruct (String.eqb_spec k k0) as [->|Hne].
  - rewrite String.eqb_refl. cbn [negb]. symmetry. apply filter_keys_absent. exact Hnin.
  - rewrite (proj2 (String.eqb_neq k0 k)) by congruence. cbn [negb]. f_equal.
    apply IH. exact Hnd'.
Qed.

Lemma nodup_keys_filter {A} (P : string * A -> bool) (l : dict A) :
  NoDup (map fst l) -> NoDup (map fst (filter P l)).
Proof.
  induction l as [|a l IH]; intros Hnd; cbn; [constructor|].
  inversion Hnd as [|? ? Hnin Hnd']; subst.
  destruct (P a); cbn; [constructor|]; auto.
  intros Hin. apply in_map_iff in Hin as (kv & Heq & Hkv).
  apply filter_In in Hkv as [Hkv _]. apply Hnin. apply in_map_iff. exists kv. auto.
Qed.

Lemma never_resolved_nil (defs : dict json) : never_resolved [] defs = defs.
Proof.
  induction defs as [|a defs IH]; [reflexivity|]. cbn. f_equal. exact IH.
Qed.

Lemma never_resolved_set (R : dict pytype) (defs : dict json) (k : string) (m : pytype) :
  never_resolved (dict_set (ref_key k) m R) defs
  = filter (fun kv => negb (String.eqb (fst kv) k)) (never_resolved R defs).
Proof.
  unfold never_resolved.
  induction defs as [|[k0 v0] defs IH]; [reflexivity|].
  cbn [filter fst]. rewrite dict_get_set, ref_key_eqb.
  destruct (String.eqb k0 k) eqn:E; destruct (dict_get (ref_key k0) R);
    cbn [filter fst negb]; rewrite ?E; cbn [negb]; rewrite ?IH; reflexivity.
Qed.

Section Mutation.
Variable to_snake : string -> string.
Variable create_model : string -> dict pytype -> result exn pytype.
Variable defs : dict json.
Hypothesis defs_nodup : NoDup (map fst defs).

(** Invariant of the loop: the dict it pops from holds exactly the
    definitions not yet in [resolved_refs]. *)
Lemma resolve_pass_never_resolved (ks : list string) (st : loop_state) :
  unresolved st = never_resolved (resolved st) defs ->
  let st' := snd (resolve_pass to_snake create_model ks st) in
  unresolved st' = never_resolved (resolved st') defs.
Proof.
  revert st. induction ks as [|k ks IH]; intros st Hinv; cbn [resolve_pass]; [exact Hinv|].
  destruct (entry <- dict_getitem k (unresolved st) ;;
            property_to_model to_snake create_model entry (resolved st)) as [m|[| |]].
  - apply IH. cbn [unresolved resolved]. rewrite Hinv, never_resolved_set.
    apply dict_pop_nodup. apply nodup_keys_filter. exact defs_nodup.
  - apply IH. exact Hinv.
  - exact Hinv.
  - exact Hinv.
Qed.

Lemma resolve_loop_never_resolved (fuel : nat) (st : loop_state) :
  unresolved st = never_resolved (resolved st) defs ->
  let st' := snd (resolve_loop to_snake create_model fuel st) in
  unresolved st' = never_resolved (resolved st') defs.
Proof.
  revert st. induction fuel as [|f IH]; intros st Hinv; cbn [resolve_loop];
    destruct (unresolved st) as [|e rest] eqn:Hu; cbn [snd]; try (rewrite Hu; exact Hinv).
  pose proof (resolve_pass_never_resolved (map fst (e :: rest)) st (eq_trans Hu Hinv)) as Hp.
  destruct (resolve_pass to_snake create_model (map fst (e :: rest)) st)
    as [[err|] st'] eqn:E; cbn [snd] in Hp; [exact Hp|].
  destruct (Nat.eqb (List.length (e :: rest)) (List.length (unresolved st'))); [exact Hp|].
  apply IH. exact Hp.
Qed.

Lemma resolve_loop_done (fuel : nat) (st : loop_state) :
  fst (resolve_loop to_snake create_model fuel st) = LoopDone ->
  unresolved (snd (resolve_loop to_snake create_model fuel st)) = [].
Proof.
  revert st. induction fuel as [|f IH]; intros st Hd; cbn [resolve_loop] in *;
    destruct (unresolved st) as [|e rest] eqn:Hu; cbn [fst snd] in *; try discriminate;
    try exact Hu.
  destruct (resolve_pass to_snake create_model (map fst (e :: rest)) st)
    as [[err|] st'] eqn:E; cbn [fst] in Hd; [discriminate|].
  destruct (Nat.eqb (List.length (e :: rest)) (List.length (unresolved st')));
    [discriminate|].
  apply IH. exact Hd.
Qed.

End Mutation.

(** C10: for a document with [properties] and a [$defs] dict without
    repeated keys, the caller's document afterwards has as [$defs] exactly
    the definitions that were never resolved (those whose reference is not
    in [resolved_refs]); that dict is empty when a model is returned; every
    other key of the document keeps its value. *)
Theorem json_schema_to_model_pops_defs (to_snake : string -> string)
  (create_model : string -> dict pytype -> result exn pytype)
  (doc : dict json) (props : json) (defs : dict json) :
  dict_get "properties" doc = Some props ->
  dict_get "$defs" doc = Some (JObj defs) ->
  NoDup (map fst defs) ->
  let '(o, R, doc') := json_schema_to_model_run to_snake create_model doc in
  dict_get "$defs" doc' = Some (JObj (never_resolved R defs))
  /\ (forall m, o = Returned m -> never_resolved R defs = [])
  /\ (forall k, k <> "$defs" -> dict_get k doc' = dict_get k doc).
Proof.
  intros Hp Hd Hnd. unfold json_schema_to_model_run. rewrite Hp, Hd.
  pose proof (resolve_loop_never_resolved to_snake create_model defs Hnd
                (S (List.length defs)) {| unresolved := defs; resolved := [] |}
                (eq_sym (never_resolved_nil defs))) as Hinv.
  pose proof (resolve_loop_done to_snake create_model
                (S (List.length defs)) {| unresolved := defs; resolved := [] |}) as Hdone.
  destruct (resolve_loop to_snake create_model (S (List.length defs))
              {| unresolved := defs; resolved := [] |}) as [lo st].
  cbn [fst snd] in Hinv, Hdone.
  split; [|split].
  - rewrite dict_get_set, String.eqb_refl, Hinv. reflexivity.
  - intros m Hm. rewrite <- Hinv. apply Hdone.
    destruct lo; [reflexivity|discriminate|discriminate].
  - intros k Hk. rewrite dict_get_set, (proj2 (String.eqb_neq k "$defs") Hk). reflexivity.
Qed.

Lemma json_schema_to_model_pops_defs_witness :
  let '(o, R, doc') :=
    json_schema_to_model_run (fun s => s) plain_create_model doc_direct_ref in
  dict_get "$defs" doc' = Some (JObj (never_resolved R [("A", def_A_ref); ("B", def_B)]))
  /\ (forall m, o = Returned m -> never_resolved R [("A", def_A_ref); ("B", def_B)] = [])
  /\ (forall k, k <> "$defs" -> dict_get k doc' = dict_get k doc_direct_ref).
Proof.
  apply (json_schema_to_model_pops_defs (fun s => s) plain_create_model doc_direct_ref
           top_properties [("A", def_A_ref); ("B", def_B)]).
  - reflexivity.
  - reflexivity.
  - constructor; [cbn; intros [H|H]; [discriminate|exact H]|].
    constructor; [cbn; tauto|constructor].
Defined.

End SchemaProofs.

(** ** More on [normalize_jptext] *)
Module NormalizeProofs.
Import Utils.

Lemma left_search_cons (a : Z) (u : str) :
  parentheses_left_search (a :: u)
  = match u with
    | b :: _ => (negb (py_isspace a) && negb (a =? 40) && (b =? 40))
                || parentheses_left_search u
    | [] => false
    end.
Proof. destruct u; reflexivity. Qed.

Lemma right_search_cons (a : Z) (u : str) :
  parentheses_right_search (a :: u)
  = match u with
    | b :: _ => ((a =? 41) && negb (py_isspace b) && negb (b =? 41))
                || parentheses_right_search u
    | [] => false
    end.
Proof. destruct u; reflexivity. Qed.

Lemma left_sub_head (a : Z) (t : str) :
  exists u, parentheses_left_sub (a :: t) = a :: u.
Proof.
  destruct t as [|b rest]; [eexists; reflexivity|].
  rewrite UtilsProofs.parentheses_left_sub_cons2.
  destruct (_ && _); eexists; reflexivity.
Qed.

Lemma right_sub_head (a : Z) (t : str) :
  exists u, parentheses_right_sub (a :: t) = a :: u.
Proof.
  destruct t as [|b rest]; [eexists; reflexivity|].
  rewrite UtilsProofs.parentheses_right_sub_cons2.
  destruct ((a =? 41) && _ && _) eqn:E; [|eexists; reflexivity].
  apply andb_true_iff in E as [E _]. apply andb_true_iff in E as [E _].
  apply Z.eqb_eq in E. subst a. eexists. reflexivity.
Qed.

Lemma right_sub_nil (s : str) : parentheses_right_sub s = [] -> s = [].
Proof.
  destruct s as [|a t]; [reflexivity|]. intros H.
  destruct (right_sub_head a t) as [u Hu]. congruence.
Qed.

(** No match left: the substitution changes nothing. *)
Lemma left_sub_clean (s : str) :
  parentheses_left_search s = false -> parentheses_left_sub s = s.
Proof.
  induction s as [|a t IH]; intros H; [reflexivity|].
  destruct t as [|b rest]; [reflexivity|].
  cbn [parentheses_left_search] in H. apply orb_false_iff in H as [Hb Ht].
  rewrite UtilsProofs.parentheses_left_sub_cons2, Hb, IH by exact Ht. reflexivity.
Qed.

Lemma right_sub_clean (s : str) :
  parentheses_right_search s = false -> parentheses_right_sub s = s.
Proof.
  induction s as [|a t IH]; intros H; [reflexivity|].
  destruct t as [|b rest]; [reflexivity|].
  cbn [parentheses_right_search] in H. apply orb_false_iff in H as [Hb Ht].
  rewrite UtilsProofs.parentheses_right_sub_cons2, Hb, IH by exact Ht. reflexivity.
Qed.

(** After the substitution, no match is left. *)
Lemma left_search_sub (s : str) : parentheses_left_search (parentheses_left_sub s) = false.
Proof.
  remember (List.length s) as n eqn:Hn. revert s Hn.
  induction n as [n IH] using lt_wf_ind.
  intros [|a [|b rest]] Hn; [reflexivity|reflexivity|].
  rewrite UtilsProofs.parentheses_left_sub_cons2.
  destruct (negb (py_isspace a) && negb (a =? 40) && (b =? 40)) eqn:Hc.
  - rewrite !left_search_cons. rewrite andb_false_r. cbn [orb py_isspace].
    destruct (parentheses_left_sub rest) as [|c u] eqn:Hr; [reflexivity|].
    cbn [Z.eqb Pos.eqb negb andb orb]. rewrite <- Hr.
    apply (IH (List.length rest)); [cbn in *; lia|reflexivity].
  - rewrite left_search_cons.
    destruct (left_sub_head b rest) as [u Hu]. rewrite Hu. rewrite Hc. cbn [orb].
    rewrite <- Hu. apply (IH (List.length (b :: rest))); [cbn in *; lia|reflexivity].
Qed.

Lemma right_search_sub (s : str) : parentheses_right_search (parentheses_right_sub s) = false.
Proof.
  remember (List.length s) as n eqn:Hn. revert s Hn.
  induction n as [n IH] using lt_wf_ind.
  intros [|a [|b rest]] Hn; [reflexivity|reflexivity|].
  rewrite UtilsProofs.parentheses_right_sub_cons2.
  destruct ((a =? 41) && negb (py_isspace b) && negb (b =? 41)) eqn:Hc.
  - apply andb_true_iff in Hc as [_ Hb41]. apply negb_true_iff in Hb41.
    rewrite !right_search_cons. change (py_isspace 32) with true.
    cbn [Z.eqb Pos.eqb negb andb orb].
    destruct (parentheses_right_sub rest) as [|c u] eqn:Hr; [reflexivity|].
    rewrite Hb41. cbn [andb orb]. rewrite <- Hr.
    apply (IH (List.length rest)); [cbn in *; lia|reflexivity].
  - rewrite right_search_cons.
    destruct (right_sub_head b rest) as [u Hu]. rewrite Hu. rewrite Hc. cbn [orb].
    rewrite <- Hu. apply (IH (List.length (b :: rest))); [cbn in *; lia|reflexivity].
Qed.

(** Inserting spaces after [")"] creates no [x(] pair. *)
Lemma right_sub_keeps_left_clean (s : str) :
  parentheses_left_search s = false ->
  parentheses_left_search (parentheses_right_sub s) = false.
Proof.
  remember (List.length s) as n eqn:Hn. revert s Hn.
  induction n as [n IH] using lt_wf_ind.
  intros [|a [|b rest]] Hn Hs; [reflexivity|reflexivity|].
  rewrite left_search_cons in Hs. apply orb_false_iff in Hs as [Hab Hs].
  rewrite UtilsProofs.parentheses_right_sub_cons2.
  destruct ((a =? 41) && negb (py_isspace b) && negb (b =? 41)) eqn:Hc.
  - rewrite !left_search_cons. cbn [Z.eqb Pos.eqb py_isspace negb andb orb].
    rewrite left_search_cons in Hs.
    destruct rest as [|c rest'].
    + reflexivity.
    + destruct (right_sub_head c rest') as [u Hu]. rewrite Hu.
      apply orb_false_iff in Hs as [Hbc Hs]. rewrite Hbc. cbn [orb]. rewrite <- Hu.
      apply (IH (List.length (c :: rest'))); [cbn in *; lia|reflexivity|exact Hs].
  - rewrite left_search_cons.
    destruct (right_sub_head b rest) as [u Hu]. rewrite Hu. rewrite Hab. cbn [orb].
    rewrite <- Hu. apply (IH (List.length (b :: rest))); [cbn in *; lia|reflexivity|exact Hs].
Qed.

Lemma normalize_trans_map_image (c : Z) :
  normalize_trans_map c = c \/ In (normalize_trans_map c) [45; 32; 34; 39].
Proof.
  unfold normalize_trans_map.
  repeat match goal with |- context [if ?b then _ else _] => destruct b end;
    cbn; tauto.
Qed.

Lemma normalize_trans_map_fixed (c : Z) :
  normalize_trans_map (normalize_trans_map c) = normalize_trans_map c.
Proof.
  destruct (normalize_trans_map_image c) as [H|H]; [rewrite H; exact H|].
  cbn in H. destruct H as [H|[H|[H|[H|[]]]]]; rewrite <- H; reflexivity.
Qed.

Lemma left_sub_forall (P : Z -> Prop) (s : str) :
  P 32 -> P 40 -> Forall P s -> Forall P (parentheses_left_sub s).
Proof.
  intros H32 H40. remember (List.length s) as n eqn:Hn. revert s Hn.
  induction n as [n IH] using lt_wf_ind.
  intros [|a [|b rest]] Hn Hs; [constructor|exact Hs|].
  inversion Hs as [|? ? Ha Hs1]; inversion Hs1 as [|? ? Hb Hrest]; subst.
  rewrite UtilsProofs.parentheses_left_sub_cons2.
  destruct (_ && _ && _).
  - repeat constructor; try assumption.
    apply (IH (List.length rest)); [cbn; lia|reflexivity|exact Hrest].
  - constructor; [exact Ha|].
    apply (IH (List.length (b :: rest))); [cbn; lia|reflexivity|exact Hs1].
Qed.

Lemma right_sub_forall (P : Z -> Prop) (s : str) :
  P 32 -> P 41 -> Forall P s -> Forall P (parentheses_right_sub s).
Proof.
  intros H32 H41. remember (List.length s) as n eqn:Hn. revert s Hn.
  induction n as [n IH] using lt_wf_ind.
  intros [|a [|b rest]] Hn Hs; [constructor|exact Hs|].
  inversion Hs as [|? ? Ha Hs1]; inversion Hs1 as [|? ? Hb Hrest]; subst.
  rewrite UtilsProofs.parentheses_right_sub_cons2.
  destruct (_ && _ && _).
  - repeat constructor; try assumption.
    apply (IH (List.length rest)); [cbn; lia|reflexivity|exact Hrest].
  - constructor; [exact Ha|].
    apply (IH (List.length (b :: rest))); [cbn; lia|reflexivity|exact Hs1].
Qed.

Lemma normalize_jptext_clean (nfkc : str -> str) (x : str) :
  parentheses_left_search (normalize_jptext nfkc x) = false
  /\ parentheses_right_search (normalize_jptext nfkc x) = false
  /\ Forall (fun c => normalize_trans_map c = c) (normalize_jptext nfkc x).
Proof.
  unfold normalize_jptext. split; [|split].
  - apply right_sub_keeps_left_clean, left_search_sub.
  - apply right_search_sub.
  - apply right_sub_forall; [reflexivity|reflexivity|].
    apply left_sub_forall; [reflexivity|reflexivity|].
    unfold translate. apply Forall_map, Forall_forall. intros c _.
    apply normalize_trans_map_fixed.
Qed.

(** After [normalize_jptext], no character other than a space or ["("]
    stands directly before ["("], and no [")"] stands directly before a
    character other than a space or [")"]: neither substitution pattern
    matches the result, whatever NFKC returns. *)
Theorem normalize_jptext_no_pattern_left (nfkc : str -> str) (x : str) :
  parentheses_left_search (normalize_jptext nfkc x) = false
  /\ parentheses_right_search (normalize_jptext nfkc x) = false.
Proof.
  destruct (normalize_jptext_clean nfkc x) as (Hl & Hr & _). split; assumption.
Qed.

(** Normalizing a normalized text changes nothing, provided NFKC leaves it
    as it is (as it does for the ASCII, kana and kanji text it produces). *)
Theorem normalize_jptext_idempotent (nfkc : str -> str) (x : str) :
  nfkc (normalize_jptext nfkc x) = normalize_jptext nfkc x ->
  normalize_jptext nfkc (normalize_jptext nfkc x) = normalize_jptext nfkc x.
Proof.
  intros Hn. destruct (normalize_jptext_clean nfkc x) as (Hl & Hr & Hf).
  set (y := normalize_jptext nfkc x) in *.
  unfold normalize_jptext at 1. rewrite Hn.
  assert (Ht : translate y = y).
  { unfold translate. rewrite (map_ext_in _ (fun c => c)) by
      (intros c Hc; exact (proj1 (Forall_forall _ _) Hf c Hc)).
    apply map_id. }
  rewrite Ht, left_sub_clean, right_sub_clean by assumption. reflexivity.
Qed.

Lemma normalize_jptext_idempotent_witness :
  let x := [102; 65288; 120; 65289; 121] in
  normalize_jptext nfkc_fragment (normalize_jptext nfkc_fragment x)
  = normalize_jptext nfkc_fragment x.
Proof.
  intros x. apply (normalize_jptext_idempotent nfkc_fragment x). reflexivity.
Defined.

End NormalizeProofs.

(** ** The constraint dictionary and the checks of the string classes *)
Module ConstraintProofs.
Import Strings.

Section Pipeline.
Variable regex : Type.
Variable re_sub : regex -> str -> str -> str.
Variable pattern_is_match : regex -> str -> bool.
Variables to_snake to_camel nfkc : str -> str.

Lemma contribute_swap (T : str_type regex) (m1 m2 : str_mixin) (d : constraints regex) :
  (d1 <- contribute regex T m1 d ;; contribute regex T m2 d1)
  = (d2 <- contribute regex T m2 d ;; contribute regex T m1 d2).
Proof.
  destruct m1, m2; cbn [contribute];
    unfold get_min_length, get_max_length, get_pattern;
    destruct (st_min_length T), (st_max_length T), (st_pattern T);
    try destruct (existsb _ (st_mro T)); cbn; reflexivity.
Qed.

Lemma contribute_err (T : str_type regex) (m : str_mixin) (d : constraints regex) (e : str_error) :
  contribute regex T m d = Err e -> e = NotImplementedError.
Proof.
  unfold contribute, get_min_length, get_max_length, get_pattern.
  destruct m; try (intros H; discriminate H);
    repeat match goal with |- context [match ?x with _ => _ end] => destruct x end;
    cbn; intros H; congruence.
Qed.

Lemma extra_constraint_dict_err (T : str_type regex) (mro : list str_mixin) (e : str_error) :
  extra_constraint_dict regex T mro = Err e -> e = NotImplementedError.
Proof.
  induction mro as [|m rest IH]; cbn [extra_constraint_dict]; [discriminate|].
  destruct (extra_constraint_dict regex T rest) as [d|e']; cbn [rbind].
  - apply contribute_err.
  - intros H. injection H as <-. apply IH. reflexivity.
Qed.

Lemma transform_step_err (T : str_type regex) (m : str_mixin) (s : str) (e : str_error) :
  transform_step regex re_sub to_snake to_camel nfkc T m s = Err e -> e = NotImplementedError.
Proof.
  unfold transform_step, get_pattern_to_repl_map, get_pattern, get_repl.
  destruct m; try (intros H; discriminate H);
    repeat match goal with |- context [match ?x with _ => _ end] => destruct x end;
    cbn; intros H; congruence.
Qed.

Lemma proc_str_err (T : str_type regex) (mro : list str_mixin) (s : str) (e : str_error) :
  proc_str regex re_sub to_snake to_camel nfkc T mro s = Err e -> e = NotImplementedError.
Proof.
  revert s. induction mro as [|m rest IH]; intros s; cbn [proc_str]; [discriminate|].
  destruct (transform_step regex re_sub to_snake to_camel nfkc T m s) as [s'|e'] eqn:E;
    cbn [rbind].
  - apply IH.
  - intros H. injection H as <-. exact (transform_step_err T m s e' E).
Qed.

Lemma extra_constraint_dict_missing (T : str_type regex) (m : str_mixin) (mro : list str_mixin) :
  In m mro -> (forall d, contribute regex T m d = Err NotImplementedError) ->
  extra_constraint_dict regex T mro = Err NotImplementedError.
Proof.
  intros Hin Hm. induction mro as [|m' rest IH]; [destruct Hin|].
  cbn [extra_constraint_dict].
  destruct (extra_constraint_dict regex T rest) as [d|e] eqn:E; cbn [rbind].
  - destruct Hin as [Heq|Hin]; [subst m'; apply Hm|].
    discriminate (IH Hin).
  - rewrite (extra_constraint_dict_err T rest e E). reflexivity.
Qed.

Lemma proc_str_missing (T : str_type regex) (mro : list str_mixin) (s : str) :
  In RegexSubstitutedStringMixIn mro ->
  get_pattern_to_repl_map regex T = Err NotImplementedError ->
  proc_str regex re_sub to_snake to_camel nfkc T mro s = Err NotImplementedError.
Proof.
  intros Hin Hg. revert s. induction mro as [|m rest IH]; intros s; [destruct Hin|].
  cbn [proc_str].
  destruct (transform_step regex re_sub to_snake to_camel nfkc T m s) as [s'|e] eqn:E;
    cbn [rbind].
  - destruct Hin as [Heq|Hin].
    + subst m. cbn [transform_step] in E. rewrite Hg in E. discriminate.
    + apply IH. exact Hin.
  - rewrite (transform_step_err T m s e E). reflexivity.
Qed.

Lemma contribute_keeps_min (T : str_type regex) (m : str_mixin) (d0 d : constraints regex) :
  m <> LimitedMinLengthStringMixIn -> contribute regex T m d0 = Ok d ->
  c_min_length d = c_min_length d0.
Proof.
  intros Hm. unfold contribute.
  destruct m; try (exfalso; apply Hm; reflexivity);
    unfold get_max_length, get_pattern;
    try destruct (st_max_length T); try destruct (st_pattern T);
    cbn; intros H; try discriminate H; injection H as <-; reflexivity.
Qed.

Lemma extra_constraint_dict_min (T : str_type regex) (mro : list str_mixin)
  (d : constraints regex) (n : Z) :
  extra_constraint_dict regex T mro = Ok d -> In LimitedMinLengthStringMixIn mro ->
  get_min_length regex T = Ok n -> c_min_length d = Some n.
Proof.
  revert d. induction mro as [|m rest IH]; intros d Hd Hin Hn; [destruct Hin|].
  cbn [extra_constraint_dict] in Hd.
  destruct (extra_constraint_dict regex T rest) as [d0|e] eqn:E; cbn [rbind] in Hd;
    [|discriminate].
  assert (Hdec : {m = LimitedMinLengthStringMixIn} + {m <> LimitedMinLengthStringMixIn})
    by (destruct m; (left; reflexivity) || (right; discriminate)).
  destruct Hdec as [->|Hm].
  - cbn [contribute] in Hd. rewrite Hn in Hd. cbn [rbind] in Hd.
    injection Hd as <-. reflexivity.
  - rewrite (contribute_keeps_min T m d0 d Hm Hd).
    destruct Hin as [Heq|Hin]; [congruence|]. eapply IH; [reflexivity|exact Hin|exact Hn].
Qed.

Lemma drop_while_suffix (p : Z -> bool) (s : str) : exists w, s = w ++ drop_while p s.
Proof.
  induction s as [|c t [w Hw]]; [exists []; reflexivity|].
  cbn [drop_while]. destruct (p c); [exists (c :: w); cbn; f_equal; exact Hw|].
  exists []. reflexivity.
Qed.

Lemma drop_while_head (p : Z -> bool) (s : str) :
  match drop_while p s with [] => True | c :: _ => p c = false end.
Proof.
  induction s as [|c t IH]; [exact I|]. cbn [drop_while].
  destruct (p c) eqn:E; [exact IH|exact E].
Qed.

(** [str::trim] leaves no white space at either end. *)
Lemma rust_trim_ends (s : str) :
  match rust_trim s with
  | [] => True
  | c :: _ => rust_is_whitespace c = false /\ rust_is_whitespace (last (rust_trim s) 0) = false
  end.
Proof.
  unfold rust_trim.
  pose proof (drop_while_head rust_is_whitespace s) as Hy.
  destruct (drop_while_suffix rust_is_whitespace
              (rev (drop_while rust_is_whitespace s))) as [w Hw].
  pose proof (drop_while_head rust_is_whitespace (rev (drop_while rust_is_whitespace s))) as Hz.
  remember (drop_while rust_is_whitespace s) as y eqn:Ey.
  remember (drop_while rust_is_whitespace (rev y)) as z eqn:Ez.
  destruct z as [|c z']; [exact I|].
  assert (Hyz : y = (rev z' ++ [c]) ++ rev w).
  { rewrite <- (rev_involutive y), Hw. rewrite rev_app_distr. reflexivity. }
  cbn [rev]. rewrite last_last.
  destruct (rev z' ++ [c]) as [|h t] eqn:Eh; [destruct (rev z'); discriminate|].
  rewrite Hyz in Hy. split; [exact Hy|exact Hz].
Qed.

Lemma str_check_ok (d : constraints regex) (s r : str) :
  str_check regex pattern_is_match d s = Ok r ->
  r = (if c_strip_whitespace d then rust_trim s else s)
  /\ (forall lo, c_min_length d = Some lo -> lo <= Z.of_nat (List.length r))
  /\ (forall hi, c_max_length d = Some hi -> Z.of_nat (List.length r) <= hi)
  /\ (forall p, c_pattern d = Some p -> pattern_is_match p r = true).
Proof.
  unfold str_check.
  set (s' := if c_strip_whitespace d then rust_trim s else s).
  destruct (c_min_length d) as [lo|];
    [destruct (Z.ltb_spec (Z.of_nat (List.length s')) lo) as [Hl|Hl]|]; cbn [rbind];
    try discriminate;
  (destruct (c_max_length d) as [hi|];
    [destruct (Z.ltb_spec hi (Z.of_nat (List.length s'))) as [Hh|Hh]|]; cbn [rbind];
    try discriminate);
  (destruct (c_pattern d) as [p|]; [destruct (pattern_is_match p s') eqn:Hp|]);
    intros Hok; try discriminate Hok; injection Hok as <-;
    repeat split; intros ? Hx; try discriminate Hx; injection Hx as <-;
    assumption || lia.
Qed.

Lemma validate_ok (T : str_type regex) (s r : str) (d : constraints regex) :
  validate regex re_sub pattern_is_match to_snake to_camel nfkc T s = Ok r ->
  extra_constraint_dict regex T (st_mro T) = Ok d ->
  exists s1, str_check regex pattern_is_match d s1 = Ok r.
Proof.
  unfold validate. intros Hv Hd. rewrite Hd in Hv. cbn [rbind] in Hv.
  destruct (proc_str regex re_sub to_snake to_camel nfkc T (st_mro T) s) as [s1|e];
    [|discriminate]. exists s1. exact Hv.
Qed.

End Pipeline.

(** The constraint dictionary a class hands to pydantic-core does not
    depend on the order of its mixins: any reordering of the MRO yields
    the same constraints (or the same [NotImplementedError]). *)
Theorem extra_constraint_dict_order_free (regex : Type) (T : str_type regex)
  (mro mro' : list str_mixin) :
  Permutation mro mro' ->
  extra_constraint_dict regex T mro = extra_constraint_dict regex T mro'.
Proof.
  induction 1 as [|m l l' _ IH|m1 m2 l|l l' l'' _ IH1 _ IH2].
  - reflexivity.
  - cbn [extra_constraint_dict]. rewrite IH. reflexivity.
  - cbn [extra_constraint_dict].
    destruct (extra_constraint_dict regex T l); cbn [rbind]; [|reflexivity].
    apply contribute_swap.
  - rewrite IH1. exact IH2.
Qed.

Lemma extra_constraint_dict_order_free_witness :
  let T : str_type char_class := {| st_mro := [TrimmedStringMixIn; LimitedMaxLengthStringMixIn];
              st_min_length := None; st_max_length := Some 8; st_pattern := None;
              st_repl := None; st_pattern_to_repl_map := None |} in
  extra_constraint_dict char_class T [TrimmedStringMixIn; LimitedMaxLengthStringMixIn]
  = extra_constraint_dict char_class T [LimitedMaxLengthStringMixIn; TrimmedStringMixIn].
Proof.
  intros T. apply extra_constraint_dict_order_free. apply perm_swap.
Defined.

(** A string [validate] accepts meets every constraint of the class's
    dictionary: its length (in characters) is within [min_length] and
    [max_length], it matches [pattern], and under [strip_whitespace] it
    neither starts nor ends with white space. *)
Theorem validate_meets_constraints (regex : Type) (re_sub : regex -> str -> str -> str)
  (pattern_is_match : regex -> str -> bool) (to_snake to_camel nfkc : str -> str)
  (T : str_type regex) (s r : str) (d : constraints regex) :
  validate regex re_sub pattern_is_match to_snake to_camel nfkc T s = Ok r ->
  extra_constraint_dict regex T (st_mro T) = Ok d ->
  (forall lo, c_min_length d = Some lo -> lo <= Z.of_nat (List.length r))
  /\ (forall hi, c_max_length d = Some hi -> Z.of_nat (List.length r) <= hi)
  /\ (forall p, c_pattern d = Some p -> pattern_is_match p r = true)
  /\ (c_strip_whitespace d = true ->
      match r with
      | [] => True
      | c :: _ => rust_is_whitespace c = false /\ rust_is_whitespace (last r 0) = false
      end).
Proof.
  intros Hv Hd.
  destruct (validate_ok regex re_sub pattern_is_match to_snake to_camel nfkc T s r d Hv Hd)
    as [s1 Hc].
  destruct (str_check_ok regex pattern_is_match d s1 r Hc) as (Hr & Hlo & Hhi & Hp).
  split; [exact Hlo|]. split; [exact Hhi|]. split; [exact Hp|].
  intros Hs. rewrite Hs in Hr. subst r. apply rust_trim_ends.
Qed.

Lemma validate_meets_constraints_witness :
  let T : str_type char_class := {| st_mro := [TrimmedStringMixIn; LimitedMaxLengthStringMixIn];
              st_min_length := None; st_max_length := Some 8; st_pattern := None;
              st_repl := None; st_pattern_to_repl_map := None |} in
  let d : constraints char_class := {| c_min_length := None; c_max_length := Some 8; c_pattern := None;
              c_strip_whitespace := true |} in
  (forall lo, c_min_length d = Some lo -> lo <= Z.of_nat (List.length (s2z "ab c")))
  /\ (forall hi, c_max_length d = Some hi -> Z.of_nat (List.length (s2z "ab c")) <= hi)
  /\ (forall p, c_pattern d = Some p -> char_class_search p (s2z "ab c") = true)
  /\ (c_strip_whitespace d = true ->
      match s2z "ab c" with
      | [] => True
      | c :: _ => rust_is_whitespace c = false
                  /\ rust_is_whitespace (last (s2z "ab c") 0) = false
      end).
Proof.
  intros T d.
  apply (validate_meets_constraints char_class char_class_sub char_class_search
           (fun s => s) (fun s => s) Utils.nfkc_fragment T (s2z "  ab c ")).
  - reflexivity.
  - reflexivity.
Defined.

(** A class that lists a mixin but does not define the hook that mixin
    needs is rejected with [NotImplementedError], whatever the input:
    a minimum length with no [get_min_length] (and no
    [NonEmptyStringMixIn]), a maximum length with no [get_max_length], a
    pattern match with no [get_pattern], or a substitution with neither a
    [get_pattern_to_repl_map] nor both [get_pattern] and [get_repl]. *)
Theorem validate_missing_hook (regex : Type) (re_sub : regex -> str -> str -> str)
  (pattern_is_match : regex -> str -> bool) (to_snake to_camel nfkc : str -> str)
  (T : str_type regex) (s : str) :
  (In LimitedMinLengthStringMixIn (st_mro T) /\ st_min_length T = None
     /\ ~ In NonEmptyStringMixIn (st_mro T))
  \/ (In LimitedMaxLengthStringMixIn (st_mro T) /\ st_max_length T = None)
  \/ (In RegexMatchedStringMixIn (st_mro T) /\ st_pattern T = None)
  \/ (In RegexSubstitutedStringMixIn (st_mro T) /\ st_pattern_to_repl_map T = None
      /\ (st_pattern T = None \/ st_repl T = None)) ->
  validate regex re_sub pattern_is_match to_snake to_camel nfkc T s
  = Err NotImplementedError.
Proof.
  intros H. unfold validate.
  destruct H as [(Hin & Hn & Hne)|[(Hin & Hn)|[(Hin & Hn)|(Hin & Hm & Hpr)]]].
  - rewrite (extra_constraint_dict_missing regex T LimitedMinLengthStringMixIn
               (st_mro T) Hin); [reflexivity|].
    intros d. cbn [contribute]. unfold get_min_length. rewrite Hn.
    destruct (existsb _ (st_mro T)) eqn:Ex; [|reflexivity].
    apply existsb_exists in Ex. destruct Ex as [m [Hm Hm']].
    destruct m; try discriminate Hm'. contradiction.
  - rewrite (extra_constraint_dict_missing regex T LimitedMaxLengthStringMixIn
               (st_mro T) Hin); [reflexivity|].
    intros d. cbn [contribute]. unfold get_max_length. rewrite Hn. reflexivity.
  - rewrite (extra_constraint_dict_missing regex T RegexMatchedStringMixIn
               (st_mro T) Hin); [reflexivity|].
    intros d. cbn [contribute]. unfold get_pattern. rewrite Hn. reflexivity.
  - destruct (extra_constraint_dict regex T (st_mro T)) as [d|e] eqn:E; cbn [rbind].
    + rewrite (proc_str_missing regex re_sub to_snake to_camel nfkc T (st_mro T) s Hin);
        [reflexivity|].
      unfold get_pattern_to_repl_map, get_pattern, get_repl. rewrite Hm.
      destruct Hpr as [Hp|Hr]; [rewrite Hp; reflexivity|].
      destruct (st_pattern T); cbn; [rewrite Hr|]; reflexivity.
    + rewrite (extra_constraint_dict_err regex T (st_mro T) e E). reflexivity.
Qed.

Lemma validate_missing_hook_witness :
  let T : str_type char_class :=
    {| st_mro := [RegexSubstitutedStringMixIn]; st_min_length := None;
       st_max_length := None; st_pattern := Some [32]; st_repl := None;
       st_pattern_to_repl_map := None |} in
  validate char_class char_class_sub char_class_search (fun s => s) (fun s => s)
    Utils.nfkc_fragment T (s2z "a b") = Err NotImplementedError.
Proof.
  intros T. apply validate_missing_hook.
  right. right. right. split; [left; reflexivity|]. split; [reflexivity|].
  right. reflexivity.
Defined.

(** With [NonEmptyStringMixIn] and [LimitedMinLengthStringMixIn] in its
    MRO and no [get_min_length] of its own, a class never accepts a
    string that ends up empty: the inherited minimum length is 1. *)
Theorem non_empty_never_empty (regex : Type) (re_sub : regex -> str -> str -> str)
  (pattern_is_match : regex -> str -> bool) (to_snake to_camel nfkc : str -> str)
  (T : str_type regex) (s : str) :
  In NonEmptyStringMixIn (st_mro T) -> In LimitedMinLengthStringMixIn (st_mro T) ->
  st_min_length T = None ->
  validate regex re_sub pattern_is_match to_snake to_camel nfkc T s <> Ok [].
Proof.
  intros Hne Hlm Hn Hv.
  assert (Hg : get_min_length regex T = Ok 1).
  { unfold get_min_length. rewrite Hn.
    replace (existsb _ (st_mro T)) with true; [reflexivity|].
    symmetry. apply existsb_exists. exists NonEmptyStringMixIn. split; [exact Hne|reflexivity]. }
  unfold validate in Hv.
  destruct (extra_constraint_dict regex T (st_mro T)) as [d|e] eqn:E; cbn [rbind] in Hv;
    [|discriminate Hv].
  pose proof (extra_constraint_dict_min regex T (st_mro T) d 1 E Hlm Hg) as Hmin.
  destruct (proc_str regex re_sub to_snake to_camel nfkc T (st_mro T) s) as [s1|e];
    cbn [rbind] in Hv; [|discriminate Hv].
  destruct (str_check_ok regex pattern_is_match d s1 [] Hv) as (_ & Hlo & _).
  specialize (Hlo 1 Hmin). cbn in Hlo. lia.
Qed.

Lemma non_empty_never_empty_witness :
  let T : str_type char_class :=
    {| st_mro := [NonEmptyStringMixIn; LimitedMinLengthStringMixIn; TrimmedStringMixIn];
       st_min_length := None; st_max_length := None; st_pattern := None;
       st_repl := None; st_pattern_to_repl_map := None |} in
  validate char_class char_class_sub char_class_search (fun s => s) (fun s => s)
    Utils.nfkc_fragment T (s2z "   ") <> Ok [].
Proof.
  intros T. apply non_empty_never_empty.
  - left. reflexivity.
  - right. left. reflexivity.
  - reflexivity.
Defined.

End ConstraintProofs.

(** ** Decoding base64 text: skipped characters, unpadded text, padding *)
Module Base64Extra.
Import Bytes.

Lemma step_skip (st : a2b_state) (c : Z) :
  (c =? 61) = false -> (table_a2b_base64 c <? 64) = false -> a2b_step st c = inl st.
Proof.
  intros H61 Ht. unfold a2b_step, BASE64_PAD. rewrite H61.
  replace (64 <=? table_a2b_base64 c) with true
    by (symmetry; apply Z.leb_le; apply Z.ltb_ge in Ht; lia).
  reflexivity.
Qed.

Lemma a2b_loop_filter (st : a2b_state) (s : list Z) :
  a2b_loop st s
  = a2b_loop st (filter (fun c => (c =? 61) || (table_a2b_base64 c <? 64)) s).
Proof.
  revert st. induction s as [|c s IH]; intros st; [reflexivity|].
  cbn [filter]. destruct ((c =? 61) || (table_a2b_base64 c <? 64)) eqn:K.
  - cbn [a2b_loop]. destruct (a2b_step st c); [apply IH|reflexivity].
  - apply orb_false_iff in K as [K1 K2]. cbn [a2b_loop].
    rewrite (step_skip st c K1 K2). apply IH.
Qed.

Lemma forallb_filter {A} (p q : A -> bool) (s : list A) :
  forallb p s = true -> forallb p (filter q s) = true.
Proof.
  induction s as [|c s IH]; [reflexivity|]. cbn [forallb filter].
  intros H. apply andb_true_iff in H as [H1 H2].
  destruct (q c); [cbn [forallb]; rewrite H1|]; apply IH; exact H2.
Qed.

(** Without padding characters the loop never stops early; each alphabet
    character moves [quad_pos] one step round the quad and adds three
    to [4 * (bytes written) + (4 - quad_pos) mod 4]. *)
Lemma a2b_loop_unpadded (s : list Z) (st : a2b_state) :
  ~ In 61 s -> 0 <= quad_pos st < 4 ->
  let n := Z.of_nat (List.length (filter (fun c => table_a2b_base64 c <? 64) s)) in
  exists st', a2b_loop st s = inl st'
    /\ quad_pos st' = (quad_pos st + n) mod 4
    /\ 4 * Z.of_nat (List.length (bin_data st')) + (4 - quad_pos st') mod 4
       = 4 * Z.of_nat (List.length (bin_data st)) + (4 - quad_pos st) mod 4 + 3 * n.
Proof.
  revert st. induction s as [|c s IH]; intros st H61 Hq n.
  - exists st. subst n. cbn. split; [reflexivity|]. split; [|lia].
    rewrite Z.add_0_r. symmetry. apply Z.mod_small. lia.
  - assert (Hc : (c =? 61) = false)
      by (apply Z.eqb_neq; intros ->; apply H61; left; reflexivity).
    assert (Hs : ~ In 61 s) by (intros Hin; apply H61; right; exact Hin).
    subst n. cbn [filter a2b_loop].
    destruct (table_a2b_base64 c <? 64) eqn:Ht.
    + assert (Hstep : exists st1, a2b_step st c = inl st1
                /\ quad_pos st1 = (quad_pos st + 1) mod 4
                /\ 4 * Z.of_nat (List.length (bin_data st1)) + (4 - quad_pos st1) mod 4
                   = 4 * Z.of_nat (List.length (bin_data st)) + (4 - quad_pos st) mod 4 + 3).
      { unfold a2b_step, BASE64_PAD. rewrite Hc.
        replace (64 <=? table_a2b_base64 c) with false
          by (symmetry; apply Z.leb_gt; apply Z.ltb_lt in Ht; lia).
        assert (Hq4 : quad_pos st = 0 \/ quad_pos st = 1 \/ quad_pos st = 2
                      \/ quad_pos st = 3) by lia.
        destruct Hq4 as [E|[E|[E|E]]]; rewrite E; cbn [Z.eqb Pos.eqb];
          eexists; (split; [reflexivity|]); cbn [quad_pos bin_data List.length];
          rewrite ?Nat2Z.inj_succ; (split; [reflexivity|Z.div_mod_to_equations; lia]). }
      destruct Hstep as (st1 & E1 & Hq1 & Hp1). rewrite E1.
      assert (Hr1 : 0 <= quad_pos st1 < 4) by (rewrite Hq1; apply Z.mod_pos_bound; lia).
      destruct (IH st1 Hs Hr1) as (st' & Hrun & Hq' & Hp').
      exists st'. split; [exact Hrun|].
      cbn [List.length]. rewrite Nat2Z.inj_succ. split.
      * rewrite Hq', Hq1. rewrite Zplus_mod_idemp_l. f_equal. lia.
      * lia.
    + apply Z.ltb_ge in Ht.
      rewrite (step_skip st c Hc ltac:(apply Z.ltb_ge; exact Ht)).
      apply (IH st Hs Hq).
Qed.

(** The decoder's loop on an encoder's output: a whole number of trios
    leaves the loop running at a quad boundary, a one- or two-byte tail
    stops it on the padding. *)
Lemma a2b_loop_b2a_exact (data : list Z) :
  Forall (fun b => 0 <= b < 256) data ->
  forall st, quad_pos st = 0 ->
  exists st', bin_data st' = rev data ++ bin_data st
    /\ (Z.of_nat (List.length data) mod 3 = 0 ->
        a2b_loop st (b2a_base64 data) = inl st' /\ quad_pos st' = 0)
    /\ (Z.of_nat (List.length data) mod 3 <> 0 ->
        a2b_loop st (b2a_base64 data) = inr st').
Proof.
  remember (List.length data) as n eqn:Hn. revert data Hn.
  induction n as [n IH] using lt_wf_ind.
  intros [|b0 [|b1 [|b2 rest]]] Hn Hall st Hq; subst n.
  - exists st. split; [reflexivity|]. split; [intros _; split; [reflexivity|exact Hq]|].
    cbn. intros H. exfalso. apply H. reflexivity.
  - inversion Hall as [|? ? Hb0 _]; subst.
    eexists. split; [|split; [cbn; intros H; discriminate H|intros _;
                              apply Base64Proofs.a2b_loop_single; assumption]].
    reflexivity.
  - inversion Hall as [|? ? Hb0 Hall1]; inversion Hall1 as [|? ? Hb1 _]; subst.
    eexists. split; [|split; [cbn; intros H; discriminate H|intros _;
                              apply Base64Proofs.a2b_loop_pair; assumption]].
    reflexivity.
  - inversion Hall as [|? ? Hb0 Hall1]; inversion Hall1 as [|? ? Hb1 Hall2];
      inversion Hall2 as [|? ? Hb2 Hrest]; subst.
    cbn [b2a_base64]. rewrite Base64Proofs.a2b_loop_app, Base64Proofs.a2b_loop_trio
      by assumption.
    destruct (IH (List.length rest) ltac:(simpl; lia) rest eq_refl Hrest
                {| quad_pos := 0; leftchar := 0; pads := 0;
                   bin_data := b2 :: b1 :: b0 :: bin_data st |} eq_refl)
      as (st' & Hbin & Hz & Hnz).
    assert (Hm : Z.of_nat (List.length (b0 :: b1 :: b2 :: rest)) mod 3
                 = Z.of_nat (List.length rest) mod 3)
      by (cbn [List.length]; rewrite !Nat2Z.inj_succ; Z.div_mod_to_equations; lia).
    exists st'. rewrite Hm. split; [|split; assumption].
    rewrite Hbin. cbn [bin_data rev]. rewrite <- !app_assoc. reflexivity.
Qed.

(** Building a [BaseBytes] from ASCII text skips every character that is
    neither a base64 digit nor the padding [=]: the text decodes exactly
    as the text with those characters removed. *)
Theorem base64_skips_other_characters (s : str) :
  forallb (fun c => c <? 128) s = true ->
  BaseBytes_validate (PyStr s)
  = BaseBytes_validate
      (PyStr (filter (fun c => (c =? 61) || (table_a2b_base64 c <? 64)) s)).
Proof.
  intros Hs. cbn [BaseBytes_validate BaseBytes_new]. unfold standard_b64decode.
  rewrite Hs, (forallb_filter _ _ s Hs). unfold a2b_base64.
  rewrite (a2b_loop_filter a2b_init s). reflexivity.
Qed.

Lemma base64_skips_other_characters_witness :
  BaseBytes_validate (PyStr (s2z "QU Jj
"))
  = BaseBytes_validate (PyStr (s2z "QUJj")).
Proof.
  apply base64_skips_other_characters. reflexivity.
Defined.

(** Text without [=] is decoded by counting its base64 digits [n]: a
    multiple of four gives [3n/4] bytes, one digit over a quad raises
    the excess-data error, two or three digits over raise the
    incorrect-padding error. *)
Theorem base64_unpadded_text (s : str) :
  forallb (fun c => c <? 128) s = true -> ~ In 61 s ->
  let n := Z.of_nat (List.length (filter (fun c => table_a2b_base64 c <? 64) s)) in
  (n mod 4 = 0 ->
     exists b, BaseBytes_validate (PyStr s) = Ok b /\ 4 * Z.of_nat (List.length b) = 3 * n)
  /\ (n mod 4 = 1 -> BaseBytes_validate (PyStr s) = Err (DecodeError ExcessDataCharacter))
  /\ (2 <= n mod 4 -> BaseBytes_validate (PyStr s) = Err (DecodeError IncorrectPadding)).
Proof.
  intros Hs H61 n.
  destruct (a2b_loop_unpadded s a2b_init H61 ltac:(cbn; lia)) as (st' & Hrun & Hq & Hp).
  fold n in Hq, Hp. cbn [quad_pos bin_data a2b_init List.length] in Hq, Hp.
  rewrite Z.add_0_l in Hq.
  cbn [BaseBytes_validate BaseBytes_new]. unfold standard_b64decode, a2b_base64.
  rewrite Hs, Hrun, Hq.
  split; [|split].
  - intros H0. rewrite H0. cbn [Z.eqb]. eexists. split; [reflexivity|].
    rewrite length_rev. rewrite Hq, H0 in Hp. Z.div_mod_to_equations. lia.
  - intros H1. rewrite H1. reflexivity.
  - intros H2. assert (H23 : n mod 4 = 2 \/ n mod 4 = 3)
      by (pose proof (Z.mod_pos_bound n 4); lia).
    destruct H23 as [E|E]; rewrite E; reflexivity.
Qed.

Lemma base64_unpadded_text_witness :
  BaseBytes_validate (PyStr (s2z "QUJj")) = Ok [65; 66; 99]
  /\ BaseBytes_validate (PyStr (s2z "QUJjR")) = Err (DecodeError ExcessDataCharacter)
  /\ BaseBytes_validate (PyStr (s2z "QUJjRA")) = Err (DecodeError IncorrectPadding).
Proof.
  split; [|split].
  - destruct (proj1 (base64_unpadded_text (s2z "QUJj") eq_refl
                       ltac:(cbn; intuition discriminate)) eq_refl) as (b & Hb & _).
    rewrite Hb. rewrite <- Hb. reflexivity.
  - apply (proj2 (base64_unpadded_text (s2z "QUJjR") eq_refl
                    ltac:(cbn; intuition discriminate))). reflexivity.
  - apply (proj2 (proj2 (base64_unpadded_text (s2z "QUJjRA") eq_refl
                           ltac:(cbn; intuition discriminate)))). apply Z.leb_le. reflexivity.
Defined.

(** The serializations of two byte strings, the first of a length that is
    a multiple of three, decode together to the two strings joined; after
    the serialization of any other byte string, decoding stops at its
    padding and ignores whatever ASCII text follows. *)
Theorem base64_concatenated_serializations (a b t : bytes) :
  Forall (fun x => 0 <= x < 256) a -> Forall (fun x => 0 <= x < 256) b ->
  forallb (fun c => c <? 128) t = true ->
  (Z.of_nat (List.length a) mod 3 = 0 ->
     BaseBytes_validate (PyStr (serialize a ++ serialize b)) = Ok (a ++ b))
  /\ (Z.of_nat (List.length a) mod 3 <> 0 ->
     BaseBytes_validate (PyStr (serialize a ++ t)) = Ok a).
Proof.
  intros Ha Hb Ht.
  destruct (a2b_loop_b2a_exact a Ha a2b_init eq_refl) as (st1 & Hbin1 & Hz & Hnz).
  cbn [bin_data a2b_init] in Hbin1. rewrite app_nil_r in Hbin1.
  cbn [BaseBytes_validate BaseBytes_new]. unfold serialize, standard_b64encode,
    standard_b64decode, a2b_base64.
  rewrite !forallb_app, Base64Proofs.b2a_base64_ascii, Ht, Base64Proofs.b2a_base64_ascii.
  cbn [andb]. rewrite !Base64Proofs.a2b_loop_app. split.
  - intros H0. destruct (Hz H0) as [Hrun Hq]. rewrite Hrun.
    destruct (a2b_loop_b2a_exact b Hb st1 Hq) as (st2 & Hbin2 & Hz2 & Hnz2).
    rewrite Hbin1 in Hbin2.
    destruct (Z.eq_dec (Z.of_nat (List.length b) mod 3) 0) as [E|E].
    + destruct (Hz2 E) as [Hrun2 Hq2]. rewrite Hrun2, Hq2. cbn [Z.eqb].
      rewrite Hbin2, <- rev_app_distr, rev_involutive. reflexivity.
    + rewrite (Hnz2 E), Hbin2, <- rev_app_distr, rev_involutive. reflexivity.
  - intros H0. rewrite (Hnz H0), Hbin1, rev_involutive. reflexivity.
Qed.

Lemma base64_concatenated_serializations_witness :
  BaseBytes_validate (PyStr (serialize [1; 2; 3] ++ serialize [4])) = Ok [1; 2; 3; 4]
  /\ BaseBytes_validate (PyStr (serialize [1; 2] ++ s2z "QUJj")) = Ok [1; 2].
Proof.
  split.
  - apply (proj1 (base64_concatenated_serializations [1; 2; 3] [4] []
                    ltac:(repeat constructor; lia) ltac:(repeat constructor; lia)
                    eq_refl)).
    reflexivity.
  - apply (proj2 (base64_concatenated_serializations [1; 2] [] (s2z "QUJj")
                    ltac:(repeat constructor; lia) ltac:(constructor) eq_refl)).
    cbn. discriminate.
Defined.

End Base64Extra.

(** ** Identifier text: what [serialize] gives back for an accepted text *)
Module IdentExtra.
Import Ident.

Lemma decode_digit_nonneg (c : Z) : 0 <= decode_digit c.
Proof.
  unfold decode_digit.
  set (c' := if (97 <=? c) && (c <=? 122) then c - 32 else c).
  destruct ((48 <=? c') && (c' <=? 57)) eqn:E.
  - apply andb_true_iff in E as [E1 _]. apply Z.leb_le in E1. lia.
  - destruct c' as [|p|p]; [lia| |lia].
    repeat (destruct p as [p|p|]; cbn; try lia).
Qed.

Lemma horner_step (acc d : Z) : 0 <= d < 32 -> Z.lor (Z.shiftl acc 5) d = acc * 32 + d.
Proof.
  intros Hd. rewrite Base64Proofs.lor_shiftl_small by (try lia; exact Hd).
  rewrite Base64Proofs.shiftl_mul by lia. reflexivity.
Qed.

Lemma horner_acc (ds : list Z) (acc : Z) :
  Forall (fun d => 0 <= d < 32) ds ->
  fold_left (fun acc d => Z.lor (Z.shiftl acc 5) d) ds acc
  = acc * 2 ^ (5 * Z.of_nat (List.length ds))
    + fold_left (fun acc d => Z.lor (Z.shiftl acc 5) d) ds 0.
Proof.
  revert acc. induction ds as [|d ds IH]; intros acc Hall.
  - cbn. ring.
  - inversion Hall as [|? ? Hd Hds]; subst. cbn [fold_left].
    rewrite (IH (Z.lor (Z.shiftl acc 5) d) Hds), (IH (Z.lor (Z.shiftl 0 5) d) Hds).
    rewrite !horner_step by exact Hd. cbn [List.length].
    replace (5 * Z.of_nat (S (List.length ds))) with (5 + 5 * Z.of_nat (List.length ds))
      by lia.
    rewrite Z.pow_add_r by lia. change (2 ^ 5) with 32. ring.
Qed.

Lemma horner_snoc (xs : list Z) (x : Z) :
  0 <= x < 32 ->
  fold_left (fun acc d => Z.lor (Z.shiftl acc 5) d) (xs ++ [x]) 0
  = fold_left (fun acc d => Z.lor (Z.shiftl acc 5) d) xs 0 * 32 + x.
Proof. intros Hx. rewrite fold_left_app. cbn [fold_left]. apply horner_step, Hx. Qed.

Lemma horner_bound (ds : list Z) :
  Forall (fun d => 0 <= d < 32) ds ->
  0 <= fold_left (fun acc d => Z.lor (Z.shiftl acc 5) d) ds 0
    < 2 ^ (5 * Z.of_nat (List.length ds)).
Proof.
  induction ds as [|x xs IH] using rev_ind; intros Hall; [cbn; lia|].
  apply Forall_app in Hall as [Hxs Hx]. inversion Hx as [|? ? Hx0 _]; subst.
  rewrite horner_snoc by exact Hx0. specialize (IH Hxs).
  rewrite length_app. cbn [List.length].
  replace (5 * Z.of_nat (List.length xs + 1)) with (5 * Z.of_nat (List.length xs) + 5)
    by lia.
  rewrite Z.pow_add_r by lia. change (2 ^ 5) with 32. lia.
Qed.

(** Writing out a digit list's value gives back the digit list. *)
Lemma digits_be_horner (ds : list Z) :
  Forall (fun d => 0 <= d < 32) ds ->
  digits_be (List.length ds) (fold_left (fun acc d => Z.lor (Z.shiftl acc 5) d) ds 0) = ds.
Proof.
  induction ds as [|x xs IH] using rev_ind; intros Hall; [reflexivity|].
  apply Forall_app in Hall as [Hxs Hx]. inversion Hx as [|? ? Hx0 _]; subst.
  replace (List.length (xs ++ [x])) with (S (List.length xs))
    by (rewrite length_app; cbn; lia).
  cbn [digits_be]. rewrite horner_snoc by exact Hx0.
  rewrite IdentProofs.land_31, Base64Proofs.shiftr_div by lia. change (2 ^ 5) with 32.
  rewrite Z.div_add_l, Z.div_small, Z.add_0_r by lia.
  rewrite Z.add_comm, Z.mod_add, Z.mod_small by lia.
  rewrite IH by exact Hxs. reflexivity.
Qed.

(** An identifier built from a text serializes to that text's canonical
    spelling: each character becomes the upper-case digit it decodes to
    ([I] and [L] give [1], [O] gives [0]); the text's first digit is at
    most [7]. *)
Theorem Id_text_canonical (s : str) (n : Z) :
  Id_of_str s = Ok n ->
  exists c0 rest, s = c0 :: rest /\ decode_digit c0 <= 7
    /\ Id_serialize n = map (fun c => encode_digit (decode_digit c)) s.
Proof.
  unfold Id_of_str, decode_ulid.
  destruct (Nat.eqb (List.length s) 26) eqn:Hlen; [|intros H; discriminate H].
  apply Nat.eqb_eq in Hlen. change (negb true) with false. cbv zeta. cbv iota.
  destruct (existsb (fun d => 31 <? d) (map decode_digit s)) eqn:Hex;
    [intros H; discriminate H|].
  destruct (7 <? hd 0 (map decode_digit s)) eqn:H7; [intros H; discriminate H|].
  intros H.
  assert (Hn : Z.land (fold_left (fun acc d => Z.lor (Z.shiftl acc 5) d)
                         (map decode_digit s) 0) (Z.ones 128) = n) by congruence.
  subst n. clear H.
  assert (Hall : Forall (fun d => 0 <= d < 32) (map decode_digit s)).
  { apply Forall_forall. intros d Hd. split.
    - apply in_map_iff in Hd as (c & <- & _). apply decode_digit_nonneg.
    - destruct (31 <? d) eqn:Hd'; [|apply Z.ltb_ge in Hd'; lia].
      assert (Ht : existsb (fun d => 31 <? d) (map decode_digit s) = true)
        by (apply existsb_exists; exists d; split; assumption).
      congruence. }
  destruct s as [|c0 rest]; [discriminate Hlen|]. exists c0, rest.
  change (map decode_digit (c0 :: rest)) with (decode_digit c0 :: map decode_digit rest)
    in Hall, H7 |- *.
  cbn [hd] in H7. apply Z.ltb_ge in H7.
  split; [reflexivity|]. split; [exact H7|].
  inversion Hall as [|? ? Hd0 Hrest]; subst.
  set (d0 := decode_digit c0) in *. set (tl := map decode_digit rest) in *.
  assert (Htl : List.length tl = 25%nat)
    by (subst tl; rewrite length_map; cbn in Hlen; lia).
  pose proof (horner_bound tl Hrest) as Hb. rewrite Htl in Hb.
  change (5 * Z.of_nat 25) with 125 in Hb.
  assert (Hsmall : Z.land (fold_left (fun acc d => Z.lor (Z.shiftl acc 5) d) (d0 :: tl) 0)
                          (Z.ones 128)
                   = fold_left (fun acc d => Z.lor (Z.shiftl acc 5) d) (d0 :: tl) 0).
  { rewrite Base64Proofs.land_low by lia. apply Z.mod_small.
    change (fold_left ?f (d0 :: tl) 0) with (fold_left f tl (f 0 d0)).
    cbv beta. rewrite horner_step by exact Hd0.
    rewrite horner_acc by exact Hrest. rewrite Htl.
    change (5 * Z.of_nat 25) with 125.
    replace (2 ^ 128) with (8 * 2 ^ 125) by reflexivity. nia. }
  rewrite Hsmall. unfold Id_serialize, encode_ulid.
  replace 26%nat with (List.length (d0 :: tl)) by (cbn; rewrite Htl; reflexivity).
  rewrite digits_be_horner by (constructor; assumption).
  cbn [map]. subst tl. rewrite map_map. reflexivity.
Qed.

Lemma Id_text_canonical_witness :
  Id_of_str (s2z "7zzzzzzzzzzzzzzzzzzzzzzzzz") = Ok (Z.ones 128)
  /\ exists c0 rest, s2z "7zzzzzzzzzzzzzzzzzzzzzzzzz" = c0 :: rest /\ decode_digit c0 <= 7
    /\ Id_serialize (Z.ones 128)
       = map (fun c => encode_digit (decode_digit c)) (s2z "7zzzzzzzzzzzzzzzzzzzzzzzzz").
Proof.
  split; [vm_compute; reflexivity|].
  apply Id_text_canonical. vm_compute. reflexivity.
Defined.

End IdentExtra.

(** ** Property types and the field dictionary of a generated model *)
Module SchemaExtra.
Import Schema.
Local Open Scope string_scope.

Lemma py_contains_obj (k : string) (kv : dict json) :
  py_contains k (JObj kv) = Ok (match dict_get k kv with Some _ => true | None => false end).
Proof. reflexivity. Qed.

(** A property schema raises [KeyError] when it is an array whose items
    name a type outside [integer], [string], [number], [boolean], and when
    it has no [type] and its [$ref] is not among the known definitions. *)
Theorem property_type_key_error (kv ikv : dict json) (t r : string) (defs : dict pytype) :
  (dict_get "type" kv = Some (JStr "array") -> dict_get "items" kv = Some (JObj ikv) ->
   dict_get "type" ikv = Some (JStr t) -> dict_get t primitive_map = None ->
   json_schema_type_to_python_type (JObj kv) defs = Err KeyError)
  /\ (dict_get "type" kv = None -> dict_get "$ref" kv = Some (JStr r) ->
      dict_get r defs = None ->
      json_schema_type_to_python_type (JObj kv) defs = Err KeyError).
Proof.
  unfold json_schema_type_to_python_type, py_getitem, dict_getitem, key_contains,
    key_getitem.
  split.
  - intros Ht Hi Hit Hp. cbn [py_contains]. rewrite Ht. cbn [rbind is_jstr].
    change (dict_get "array" primitive_map) with (@None pytype).
    change (String.eqb "array" "array") with true. cbv iota.
    rewrite Hi. cbn [rbind py_contains]. rewrite Hit. cbn [rbind].
    unfold dict_getitem. rewrite Hp. reflexivity.
  - intros Ht Hr Hd. cbn [py_contains]. rewrite Ht. cbn [rbind]. rewrite Hr.
    cbn [rbind]. unfold dict_getitem. rewrite Hd. reflexivity.
Qed.

Lemma property_type_key_error_witness :
  json_schema_type_to_python_type
    (JObj [("type", JStr "array"); ("items", JObj [("type", JStr "object")])]) []
  = Err KeyError
  /\ json_schema_type_to_python_type (JObj [("$ref", JStr "#/$defs/A")]) []
     = Err KeyError.
Proof.
  split.
  - apply (proj1 (property_type_key_error
                    [("type", JStr "array"); ("items", JObj [("type", JStr "object")])]
                    [("type", JStr "object")] "object" "" [])); reflexivity.
  - apply (proj2 (property_type_key_error [("$ref", JStr "#/$defs/A")] []
                    "" "#/$defs/A" [])); reflexivity.
Defined.

Lemma field_definitions_keep (to_snake : string -> string) (post : dict json)
  (defs acc fs : dict pytype) (x : string) :
  field_definitions to_snake post defs acc = Ok fs ->
  (forall k' v', In (k', v') post -> to_snake k' <> x) ->
  dict_get x fs = dict_get x acc.
Proof.
  revert acc. induction post as [|[k' v'] post IH]; intros acc Hf Hn.
  - cbn [field_definitions] in Hf. injection Hf as <-. reflexivity.
  - cbn [field_definitions] in Hf.
    destruct (json_schema_type_to_python_type v' defs) as [t'|e]; cbn [rbind] in Hf;
      [|discriminate Hf].
    rewrite (IH _ Hf) by (intros k'' v'' Hin; apply (Hn k'' v''); right; exact Hin).
    rewrite SchemaProofs.dict_get_set.
    destruct (String.eqb_spec x (to_snake k')) as [Heq|]; [|reflexivity].
    exfalso. apply (Hn k' v'); [left; reflexivity|symmetry; exact Heq].
Qed.

(** When two properties have the same snake-case name, the generated
    model's field has the type of the last of them: a property whose
    name no later property shares gives its field its own type. *)
Theorem field_definitions_last_wins (to_snake : string -> string)
  (pre post : dict json) (k : string) (v : json) (defs fs : dict pytype) :
  field_definitions to_snake (pre ++ (k, v) :: post)%list defs [] = Ok fs ->
  (forall k' v', In (k', v') post -> to_snake k' <> to_snake k) ->
  exists t, json_schema_type_to_python_type v defs = Ok t
    /\ dict_get (to_snake k) fs = Some t.
Proof.
  intros Hf Hn. revert Hf. generalize (@nil (string * pytype)) as acc0.
  induction pre as [|[k0 v0] pre IH]; intros acc Hf.
  - cbn [app field_definitions] in Hf.
    destruct (json_schema_type_to_python_type v defs) as [t|e]; cbn [rbind] in Hf;
      [|discriminate Hf].
    exists t. split; [reflexivity|].
    rewrite (field_definitions_keep to_snake post defs _ fs (to_snake k) Hf Hn).
    rewrite SchemaProofs.dict_get_set, String.eqb_refl. reflexivity.
  - cbn [app field_definitions] in Hf.
    destruct (json_schema_type_to_python_type v0 defs) as [t0|e]; cbn [rbind] in Hf;
      [|discriminate Hf].
    exact (IH _ Hf).
Qed.

Lemma field_definitions_last_wins_witness :
  exists t, json_schema_type_to_python_type (JObj [("type", JStr "integer")]) [] = Ok t
    /\ dict_get "a_b" [("a_b", TInt)] = Some t.
Proof.
  apply (field_definitions_last_wins
           (fun k => if String.eqb k "aB" then "a_b" else k)
           [("a_b", JObj [("type", JStr "string")])] [] "aB"
           (JObj [("type", JStr "integer")]) []).
  - reflexivity.
  - intros k' v' Hin. destruct Hin.
Defined.

End SchemaExtra.

(** ** Assignments to the timestamp fields *)
Module UpdateTimeExtra.
Import UpdateTime.
Local Open Scope string_scope.



End UpdateTimeExtra.

(** ** NaN against a float bound *)
Module FloatExtra.
Import Numbers.

Lemma Prim2SF_nan : Prim2SF PrimFloat.nan = S754_nan.
Proof. reflexivity. Qed.

Lemma leb_nan_r (x : PrimFloat.float) : PrimFloat.leb x PrimFloat.nan = false.
Proof. rewrite FloatAxioms.leb_spec, Prim2SF_nan. destruct (Prim2SF x); reflexivity. Qed.

(** A float class with a lower bound and no upper bound rejects NaN with
    the [greater_than_equal] error; a float class with no bound accepts
    it. *)
Theorem validate_float_nan (T : float_type) (d : float_constraints) :
  float_constraint_dict T (ft_mro T) = Ok d ->
  fle d = None ->
  (forall lo, fge d = Some lo -> validate_float T PrimFloat.nan = Err GreaterThanEqual)
  /\ (fge d = None -> validate_float T PrimFloat.nan = Ok PrimFloat.nan).
Proof.
  intros Hd Hle. unfold validate_float. rewrite Hd. cbn [rbind]. rewrite Hle. cbn [rbind].
  split.
  - intros lo Hlo. rewrite Hlo, leb_nan_r. reflexivity.
  - intros Hlo. rewrite Hlo. reflexivity.
Qed.

Lemma validate_float_nan_witness :
  validate_float {| ft_mro := [LowerBoundFloatMixIn]; ft_min_value := Some 3%float;
                    ft_max_value := None |} PrimFloat.nan = Err GreaterThanEqual.
Proof.
  apply (proj1 (validate_float_nan
                  {| ft_mro := [LowerBoundFloatMixIn]; ft_min_value := Some 3%float;
                     ft_max_value := None |}
                  {| fge := Some 3%float; fle := None |}
                  ltac:(reflexivity) ltac:(reflexivity)) 3%float).
  reflexivity.
Defined.

End FloatExtra.

(** ** [BaseSettings.load] and the class configuration *)
Module SettingsExtra.
Import Settings.
Local Open Scope string_scope.

Lemma config_set_restore (V : Type) (c : model_config V) (k : config_key) (v : V) :
  config_set V (config_set V c k v) k (config_get V c k) = c.
Proof. destruct c, k; reflexivity. Qed.

(** [load] with a [.json] path (or else a [.yaml] / [.yml] path) builds
    the settings with that path stored under [json_file] (or
    [yaml_file]); when [cls()] succeeds the class configuration is
    restored, when it raises the path stays stored in it. *)
Theorem load_config_after (V : Type) (str_value : string -> V) (E S : Type)
  (cls : model_config V -> result E S) (p : string) (c : model_config V) (k : config_key) :
  (endswith p ".json" = true /\ k = JsonFileKey)
  \/ (endswith p ".json" = false /\ (endswith p ".yaml" || endswith p ".yml") = true
      /\ k = YamlFileKey) ->
  (forall s, cls (config_set V c k (str_value p)) = Ok s ->
     load V str_value E S cls (Some p) c = (Ok s, c))
  /\ (forall e, cls (config_set V c k (str_value p)) = Err e ->
     load V str_value E S cls (Some p) c = (Err e, config_set V c k (str_value p))).
Proof.
  intros Hk. unfold load.
  destruct Hk as [[Hj ->]|(Hj & Hy & ->)]; rewrite Hj; [|rewrite Hy];
    unfold patch_config_value; split; intros r Hr; rewrite Hr;
    try rewrite config_set_restore; reflexivity.
Qed.

Lemma load_config_after_witness :
  load string (fun s => s) unit string (fun c => Ok (json_file c)) (Some "a.json")
    {| json_file := "old"; yaml_file := "" |}
  = (Ok "a.json", {| json_file := "old"; yaml_file := "" |}).
Proof.
  apply (proj1 (load_config_after string (fun s => s) unit string
                  (fun c => Ok (json_file c)) "a.json"
                  {| json_file := "old"; yaml_file := "" |} JsonFileKey
                  (or_introl (conj eq_refl eq_refl)))).
  reflexivity.
Defined.

End SettingsExtra.
